(** * isotope-tools: mass_shift_abundances.py

    A shallow embedding of the enumeration / evaluation / aggregation
    engine of [mass_shift_abundances.py] and of its formula parser,
    together with the properties stated about them.

    Conventions of the embedding:
    - a Python [int] is a [Z];
    - a Python [float] is an element of a type [F] carrying the four
      constants and operations the program uses ([0], [1.0], [+], [*]);
      the instance [binary64] (Rocq's primitive IEEE-754 binary64 floats)
      is the arithmetic the program runs on, the instance [exact] (the
      rationals [Qc]) is real-number arithmetic without rounding;
    - a Python [dict] is an association list in insertion order, because
      the program iterates over its dictionaries ([.items()]) and the order
      of iteration decides the order of enumeration;
    - a Python [set] is a [gset];
    - a raised exception is the [Raise] case of [result];
    - a [str] is a [string]: its characters are code points below 256. *)

From Stdlib Require Import ZArith String Ascii Floats QArith Qcanon.
From stdpp Require Import base option numbers strings gmap list.

Set Warnings "-inexact-float".
Open Scope Z_scope.

(** ** Exceptions *)

Inductive exn : Type :=
  | KeyError_atom (atom : string)          (* abdTable[atom] *)
  | KeyError_key (key : Z * Z)             (* out[(mass, shift)] *)
  | ValueError_int (digits : string)       (* int(num) over the digit limit *)
  | ValueError_pool (cpus : Z)             (* mp.Pool(cpus) with cpus < 1 *)
  | MissingAbundances (missing : gset string).   (* _checkCongruency *)

Inductive result (A : Type) : Type :=
  | Ok (a : A)
  | Raise (e : exn).
Arguments Ok {A} a.
Arguments Raise {A} e.

(** Sequencing: an exception raised by [m] ends the computation.  With
    these two instances [x ← m; k] runs [m], binds its value to [x] and
    goes on with [k]. *)
#[export] Instance result_ret : MRet result := fun A a => Ok a.

#[export] Instance result_bind : MBind result := fun A B k m =>
  match m with
  | Ok a => k a
  | Raise e => Raise e
  end.

(** ** Dictionaries *)

(** [dict K V]: the (key, value) pairs, in the order of insertion. *)
Abbreviation dict K V := (list (K * V)) (only parsing).

Section Dict.
Context {K V : Type} `{EqDecision K}.

(** [d.keys()] *)
Definition keys (d : dict K V) : list K := d.*1.

(** [d.values()] *)
Definition values (d : dict K V) : list V := d.*2.

(** Lookup of a key: [Some v] when [k in d], [None] otherwise. *)
Fixpoint dict_lookup (d : dict K V) (k : K) : option V :=
  match d with
  | [] => None
  | (k', v) :: d' => if decide (k = k') then Some v else dict_lookup d' k
  end.

(** [d.get(k, dflt)] *)
Definition dict_get (d : dict K V) (k : K) (dflt : V) : V :=
  match dict_lookup d k with
  | Some v => v
  | None => dflt
  end.

(** [d[k] = v]: an existing key keeps its place, a new one goes last. *)
Fixpoint dict_set (d : dict K V) (k : K) (v : V) : dict K V :=
  match d with
  | [] => [(k, v)]
  | (k', v') :: d' =>
      if decide (k = k') then (k', v) :: d' else (k', v') :: dict_set d' k v
  end.

(** The invariant of every Python dictionary: no key occurs twice. *)
Definition dict_wf (d : dict K V) : Prop := NoDup (keys d).

End Dict.

(** ** Arithmetic of abundances *)

Class Arith (F : Type) : Type := {
  fzero : F;                (* the [0] of [out.get((mass, shift), 0)] *)
  fone : F;                 (* the [1.0] of [abundance = 1.0] *)
  fadd : F -> F -> F;       (* [+=] on abundances *)
  fmul : F -> F -> F        (* [*=] on abundances *)
}.

(** The arithmetic of the program: IEEE-754 binary64. *)
#[export] Instance binary64 : Arith float := {|
  fzero := 0%float;
  fone := 1%float;
  fadd := PrimFloat.add;
  fmul := PrimFloat.mul
|}.

(** Arithmetic without rounding. *)
#[export] Instance exact : Arith Qc := {|
  fzero := 0%Qc;
  fone := 1%Qc;
  fadd := Qcplus;
  fmul := Qcmult
|}.

(** The laws of arithmetic without rounding (a commutative semiring). *)
Class ExactArith (F : Type) `{Arith F} : Prop := {
  fadd_comm : forall x y : F, fadd x y = fadd y x;
  fadd_assoc : forall x y z : F, fadd x (fadd y z) = fadd (fadd x y) z;
  fadd_zero_l : forall x : F, fadd fzero x = x;
  fmul_comm : forall x y : F, fmul x y = fmul y x;
  fmul_assoc : forall x y z : F, fmul x (fmul y z) = fmul (fmul x y) z;
  fmul_one_l : forall x : F, fmul fone x = x;
  fmul_zero_l : forall x : F, fmul fzero x = fzero;
  fmul_add_distr_r : forall x y z : F,
    fmul (fadd x y) z = fadd (fmul x z) (fmul y z)
}.

(** Sum of a list of integers, and the running sum and product of
    abundances, taken from left to right as the program's loops do. *)
Definition sum_Z (l : list Z) : Z := foldr Z.add 0 l.

Definition fsum {F} `{Arith F} (l : list F) : F := fold_left fadd l fzero.

Definition fprod {F} `{Arith F} (l : list F) : F := fold_left fmul l fone.

Fixpoint fpow {F} `{Arith F} (x : F) (n : nat) : F :=
  match n with
  | O => fone
  | S n' => fmul x (fpow x n')
  end.

(** ** The formula parser *)

(** Code point of a character. *)
Definition code (c : ascii) : Z := Z.of_N (N_of_ascii c).

(** [[A-Z]], [[a-z]] and [\d].  Below code point 256 the only decimal
    digits are [0] to [9]. *)
Definition is_upper (c : ascii) : bool := (65 <=? code c) && (code c <=? 90).
Definition is_lower (c : ascii) : bool := (97 <=? code c) && (code c <=? 122).
Definition is_digit (c : ascii) : bool := (48 <=? code c) && (code c <=? 57).

(** [\d*]: the longest prefix of digits, and what follows it. *)
Fixpoint span_digits (s : string) : string * string :=
  match s with
  | String c rest =>
      if is_digit c
      then let '(num, rest') := span_digits rest in (String c num, rest')
      else (EmptyString, s)
  | EmptyString => (EmptyString, EmptyString)
  end.

(** One match of [PATTERN] at the start of [s]: an upper-case letter and
    at most one lower-case letter (first group), then the digits that
    follow (second group).  The value is the two groups and the text after
    the match.  Both quantifiers are greedy and the match cannot fail once
    the upper-case letter is there. *)
Definition PATTERN_match (s : string) : option (string * string * string) :=
  match s with
  | String c rest =>
      if is_upper c then
        let '(low, rest1) :=
          match rest with
          | String d rest' =>
              if is_lower d then (String d EmptyString, rest')
              else (EmptyString, rest)
          | EmptyString => (EmptyString, rest)
          end in
        let '(num, rest2) := span_digits rest1 in
        Some (String c low, num, rest2)
      else None
  | EmptyString => None
  end.

(** [PATTERN.findall]: the matches from left to right, without overlap; a
    position where the pattern does not match is skipped.  Every step
    consumes a character, so a fuel of [length s] is enough
    ([PATTERN_findall_match], [PATTERN_findall_skip]). *)
Fixpoint findall_from (fuel : nat) (s : string) : list (string * string) :=
  match fuel with
  | O => []
  | S fuel' =>
      match s with
      | EmptyString => []
      | String _ rest =>
          match PATTERN_match s with
          | Some (atom, num, rest') => (atom, num) :: findall_from fuel' rest'
          | None => findall_from fuel' rest
          end
      end
  end.

Definition PATTERN_findall (s : string) : list (string * string) :=
  findall_from (String.length s) s.

(** [int(num)] for a string of decimal digits.  The interpreter refuses a
    string of more than [sys.get_int_max_str_digits()] digits (4300 unless
    reconfigured) with a [ValueError]. *)
Definition int_max_str_digits : Z := 4300.

Fixpoint digits_value (acc : Z) (num : string) : Z :=
  match num with
  | EmptyString => acc
  | String c rest => digits_value (10 * acc + (code c - 48)) rest
  end.

Definition py_int (num : string) : result Z :=
  if int_max_str_digits <? Z.of_nat (String.length num)
  then Raise (ValueError_int num)
  else Ok (digits_value 0 num).

(** [int(num) if num else 1] *)
Definition count_of (num : string) : result Z :=
  if decide (num = EmptyString) then Ok 1 else py_int num.

(** The dictionary comprehension: one assignment [out[atom] = count] per
    match, in order. *)
Fixpoint comprehension (matches : list (string * string))
    (out : dict string Z) : result (dict string Z) :=
  match matches with
  | [] => Ok out
  | (atom, num) :: matches' =>
      n ← count_of num; comprehension matches' (dict_set out atom n)
  end.

Definition _parseFormula (formula : string) : result (dict string Z) :=
  comprehension (PATTERN_findall formula) [].

(** The second group of a match consists of digits. *)
Fixpoint all_digits (num : string) : bool :=
  match num with
  | EmptyString => true
  | String c rest => is_digit c && all_digits rest
  end.

(** The digits of [num] are all [0]. *)
Fixpoint all_zeros (num : string) : bool :=
  match num with
  | EmptyString => true
  | String c rest => (code c =? 48) && all_zeros rest
  end.

(** The count the parser gives to a symbol followed by [num]. *)
Definition count_value (num : string) : Z :=
  if decide (num = EmptyString) then 1 else digits_value 0 num.

(** The digits that follow the last occurrence of [atom] in the matches. *)
Fixpoint last_occurrence (atom : string) (matches : list (string * string))
    : option string :=
  match matches with
  | [] => None
  | (atom', num) :: matches' =>
      match last_occurrence atom matches' with
      | Some num' => Some num'
      | None => if decide (atom = atom') then Some num else None
      end
  end.

(** An element symbol: an upper-case letter, alone or followed by one
    lower-case letter. *)
Definition is_symbol (atom : string) : bool :=
  match atom with
  | String c EmptyString => is_upper c
  | String c (String d EmptyString) => is_upper c && is_lower d
  | _ => false
  end.

(** Some character of the text is an upper-case letter. *)
Fixpoint has_upper (s : string) : bool :=
  match s with
  | EmptyString => false
  | String c rest => is_upper c || has_upper rest
  end.

(** The elements of a list in the order of their first occurrence. *)
Fixpoint first_occurrences {A} `{EqDecision A} (l : list A) : list A :=
  match l with
  | [] => []
  | x :: l' => x :: filter (fun y => y ≠ x) (first_occurrences l')
  end.

(** The text of a formula written as symbols, each followed by its
    digits. *)
Fixpoint render (pairs : list (string * string)) : string :=
  match pairs with
  | [] => EmptyString
  | (atom, num) :: pairs' => (atom ++ num ++ render pairs')%string
  end.

(** ** The congruency check *)

Definition _checkCongruency {V} (formula : dict string Z)
    (abundances : dict string V) : result unit :=
  let missing : gset string :=
    list_to_set (keys formula) ∖ list_to_set (keys abundances) in
  if decide (missing ≠ ∅) then Raise (MissingAbundances missing) else Ok ().

(** Every atom of the formula has an entry in the abundance table. *)
Definition congruent {V} (formula : dict string Z)
    (abundances : dict string V) : Prop :=
  ∀ atom, atom ∈ keys formula → atom ∈ keys abundances.

(** ** The engine *)

(** A run of the engine: the isotopomers handed to the evaluator, in the
    order of their enumeration, and the outcome. *)
Record run (I A : Type) : Type := {
  evaluated : list I;
  outcome : result A
}.
Arguments evaluated {I A} r.
Arguments outcome {I A} r.

(** One possible identity of one atom: (isotope mass, mass shift,
    abundance). *)
Abbreviation choice F := (Z * Z * F)%type (only parsing).

(** One choice for every atom of the formula. *)
Abbreviation isotopomer F := (list (choice F)) (only parsing).

(** (total mass, total shift, abundance) *)
Abbreviation isotopomer_result F := (Z * Z * F)%type (only parsing).

(** element -> isotope -> (mass shift, abundance) *)
Abbreviation abundance_table F := (dict string (dict Z (Z * F))) (only parsing).

(** (total mass, total shift) -> summed abundance *)
Abbreviation distribution F := (dict (Z * Z) F) (only parsing).

Section Engine.
Context {F : Type} `{Arith F}.

Definition choice_mass (c : choice F) : Z := c.1.1.
Definition choice_shift (c : choice F) : Z := c.1.2.
Definition choice_abundance (c : choice F) : F := c.2.

Definition result_key (r : isotopomer_result F) : Z * Z := r.1.
Definition result_abundance (r : isotopomer_result F) : F := r.2.

(** [_getOneIsotopomer]: the [for] loop over [atoms], started from
    [mass = 0], [shift = 0], [abundance = 1.0]. *)
Definition _getOneIsotopomer (atoms : isotopomer F) : isotopomer_result F :=
  fold_left
    (fun '(mass, shift, abundance) '(iso, ms, ab) =>
       (mass + iso, shift + ms, fmul abundance ab))
    atoms (0, 0, fone).

(** [[(iso, shift, ab) for iso, (shift, ab) in abdTable[atom].items()]] *)
Definition choices (isotopes : dict Z (Z * F)) : list (choice F) :=
  (fun '(iso, (shift, ab)) => (iso, shift, ab)) <$> isotopes.

(** The first loop of [genArgs]: [expanded_formula] is extended by [num]
    references to the list of choices of [atom]; [abdTable[atom]] raises
    [KeyError] for an atom without entry, and a list times a number that
    is not positive is empty.  The interpreter's bound on the size of a
    list (a count of 2^63 or more, or more slots than the memory holds)
    has no part in the model. *)
Fixpoint expand (abdTable : abundance_table F) (items : list (string * Z))
    (expanded_formula : list (list (choice F)))
    : result (list (list (choice F))) :=
  match items with
  | [] => Ok expanded_formula
  | (atom, num) :: items' =>
      match dict_lookup abdTable atom with
      | None => Raise (KeyError_atom atom)
      | Some isotopes =>
          expand abdTable items'
            (expanded_formula ++ replicate (Z.to_nat num) (choices isotopes))
      end
  end.

(** [itertools.product] of the pools: nested loops, the rightmost pool cycling
    fastest; no pool gives the single empty tuple. *)
Fixpoint product {A} (pools : list (list A)) : list (list A) :=
  match pools with
  | [] => [[]]
  | pool :: pools' => x ← pool; (fun atoms => x :: atoms) <$> product pools'
  end.

(** [genArgs]: the sequence of isotopomers it yields. *)
Definition genArgs (formula : dict string Z) (abdTable : abundance_table F)
    : result (list (isotopomer F)) :=
  expanded_formula ← expand abdTable formula []; mret (product expanded_formula).

(** [with mp.Pool(cpus) as pool: isotopomers = pool.map(_getOneIsotopomer,
    genArgs())].  The pool refuses a size below 1; the generator runs
    inside [pool.map], whose value is the list of the results of all the
    calls, in the order of the arguments, whatever the size of the pool.
    The handler of [KeyboardInterrupt] answers a signal from outside the
    program and has no part in the model. *)
Definition pool_map (cpus : Z) (args : result (list (isotopomer F)))
    : run (isotopomer F) (list (isotopomer_result F)) :=
  if cpus <? 1 then {| evaluated := []; outcome := Raise (ValueError_pool cpus) |}
  else match args with
       | Raise e => {| evaluated := []; outcome := Raise e |}
       | Ok isos =>
           {| evaluated := isos; outcome := Ok (_getOneIsotopomer <$> isos) |}
       end.

(** The body of the second loop:
    [out[(mass, shift)] = out.get((mass, shift), 0)] and then
    [out[(mass, shift)] += abundance]. *)
Definition accumulate (out : distribution F) (r : isotopomer_result F)
    : result (distribution F) :=
  let '(mass, shift, abundance) := r in
  let out := dict_set out (mass, shift) (dict_get out (mass, shift) fzero) in
  match dict_lookup out (mass, shift) with
  | Some v => Ok (dict_set out (mass, shift) (fadd v abundance))
  | None => Raise (KeyError_key (mass, shift))
  end.

Fixpoint combine (isotopomers : list (isotopomer_result F))
    (out : distribution F) : result (distribution F) :=
  match isotopomers with
  | [] => Ok out
  | r :: isotopomers' => out' ← accumulate out r; combine isotopomers' out'
  end.

Definition _getMassShiftAbundances (formula : dict string Z)
    (abdTable : abundance_table F) (cpus : Z)
    : run (isotopomer F) (distribution F) :=
  let pooled := pool_map cpus (genArgs formula abdTable) in
  {| evaluated := evaluated pooled;
     outcome := isotopomers ← outcome pooled; combine isotopomers [] |}.

(** [_main] from the parsed command line on; the abundance table is given
    as [_parseAbundanceTable] read it, and the distribution is what is
    handed to [_writeResults].  Reading the table and writing the result,
    and the exceptions they raise, have no part in this definition. *)
Definition _main (formula : string) (abundance : abundance_table F)
    (cpus : Z) : run (isotopomer F) (distribution F) :=
  match _parseFormula formula with
  | Raise e => {| evaluated := []; outcome := Raise e |}
  | Ok formula =>
      match _checkCongruency formula abundance with
      | Raise e => {| evaluated := []; outcome := Raise e |}
      | Ok _ => _getMassShiftAbundances formula abundance cpus
      end
  end.

(** *** Quantities the properties are stated with *)

(** The isotopes of an element ([[]] for an element without entry). *)
Definition isotopes_of (abdTable : abundance_table F) (atom : string)
    : dict Z (Z * F) :=
  dict_get abdTable atom [].

(** The slots of a formula: for every element, in the order of the formula,
    as many copies of its list of choices as it has atoms. *)
Definition slots (formula : dict string Z) (abdTable : abundance_table F)
    : list (list (choice F)) :=
  '(atom, num) ← formula;
  replicate (Z.to_nat num) (choices (isotopes_of abdTable atom)).

(** The product over the elements of (number of isotopes) ^ (atom count). *)
Definition space_size (formula : dict string Z) (abdTable : abundance_table F)
    : nat :=
  foldr (fun '(atom, num) acc =>
           (length (isotopes_of abdTable atom) ^ Z.to_nat num * acc)%nat)
        1%nat formula.

(** The product over the elements of (sum of the abundances of its
    isotopes) ^ (atom count). *)
Definition expected_total (formula : dict string Z)
    (abdTable : abundance_table F) : F :=
  foldr (fun '(atom, num) acc =>
           fmul (fpow (fsum (choice_abundance <$>
                               choices (isotopes_of abdTable atom)))
                      (Z.to_nat num)) acc)
        fone formula.

(** The abundances of the results that fall on the key [(mass, shift)], in
    the order of the results. *)
Definition contributions (key : Z * Z) (results : list (isotopomer_result F))
    : list F :=
  result_abundance <$> filter (fun r => result_key r = key) results.

(** The product over the pools of the sum of the abundances of a pool. *)
Definition pools_total (pools : list (list (choice F))) : F :=
  foldr (fun pool acc => fmul (fsum (choice_abundance <$> pool)) acc)
        fone pools.


(** The sum of the values of a distribution. *)
Definition dist_total (d : distribution F) : F := fsum (values d).

End Engine.

(** The number of atoms of a formula: the sum of its counts, a count that
    is not positive standing for no atom. *)
Definition atom_count (formula : dict string Z) : nat :=
  foldr (fun '(_, num) acc => (Z.to_nat num + acc)%nat) 0%nat formula.

(** The result of an isotopomer with one more atom in front. *)
Definition add_atom {F} `{Arith F} (c : choice F) (r : isotopomer_result F)
    : isotopomer_result F :=
  (choice_mass c + r.1.1, choice_shift c + r.1.2,
   fmul (choice_abundance c) r.2).

(** ** The abundance table reader *)

(** A row as [csv.DictReader] hands it over: the texts under the columns
    [element], [isotope], [mass shift] and [abundance]. *)
Record table_row : Type := {
  row_element : string;
  row_isotope : string;
  row_mass_shift : string;
  row_abundance : string
}.

Section AbundanceTable.
Context {F : Type}.
(** [int] and [float] applied to the text of a field. *)
Context (int_of_str : string → result Z) (float_of_str : string → result F).

(** The first four statements of the loop body: the fields of the row,
    converted in the order isotope, mass shift, abundance. *)
Definition read_row (row : table_row) : result (string * Z * Z * F) :=
  let element := row_element row in
  isotope ← int_of_str (row_isotope row);
  shift ← int_of_str (row_mass_shift row);
  abund ← float_of_str (row_abundance row);
  mret (element, isotope, shift, abund).

(** The last two statements of the loop body:
    [out[element] = out.get(element, dict())] and then
    [out[element][isotope] = (shift, abund)]. *)
Definition store_row (out : abundance_table F) (r : string * Z * Z * F)
    : result (abundance_table F) :=
  let '(element, isotope, shift, abund) := r in
  let out := dict_set out element (dict_get out element []) in
  match dict_lookup out element with
  | Some isotopes =>
      Ok (dict_set out element (dict_set isotopes isotope (shift, abund)))
  | None => Raise (KeyError_atom element)
  end.

Fixpoint read_rows (rows : list table_row) (out : abundance_table F)
    : result (abundance_table F) :=
  match rows with
  | [] => Ok out
  | row :: rows' =>
      r ← read_row row; out' ← store_row out r; read_rows rows' out'
  end.

(** [_parseAbundanceTable] from the rows of the file on; opening the file
    and splitting its lines are the work of [open] and [csv]. *)
Definition _parseAbundanceTable (rows : list table_row)
    : result (abundance_table F) :=
  read_rows rows [].

(** The table after a converted row has been stored. *)
Definition stored (out : abundance_table F) (r : string * Z * Z * F)
    : abundance_table F :=
  let '(element, isotope, shift, abund) := r in
  dict_set out element
    (dict_set (dict_get out element []) isotope (shift, abund)).

(** [table[element][isotope]], when both keys are there. *)
Definition table_lookup (table : abundance_table F) (element : string)
    (isotope : Z) : option (Z * F) :=
  isotopes ← dict_lookup table element; dict_lookup isotopes isotope.

(** The mass shift and abundance of the last of the converted rows that
    has the given element and isotope. *)
Fixpoint last_row (element : string) (isotope : Z)
    (converted : list (string * Z * Z * F)) : option (Z * F) :=
  match converted with
  | [] => None
  | (element', isotope', shift, abund) :: converted' =>
      match last_row element isotope converted' with
      | Some v => Some v
      | None =>
          if decide (element = element' ∧ isotope = isotope')
          then Some (shift, abund) else None
      end
  end.

End AbundanceTable.

(** ** Inputs of the examples *)

Definition formula_CH4 : dict string Z := [("C"%string, 1); ("H"%string, 4)].


Definition table_CH : abundance_table float :=
  [("C"%string, [(12, (0, 0.99%float)); (13, (1, 0.01%float))]);
   ("H"%string, [(1, (0, 1.0%float))])].

Definition formula_CNO : dict string Z :=
  [("C"%string, 1); ("N"%string, 2); ("O"%string, 1)].

Definition formula_C2 : dict string Z := [("C"%string, 2)].

(** Carbon with the abundances 0.9893 and 0.0107. *)
Definition table_C : abundance_table float :=
  [("C"%string, [(12, (0, 0.9893%float)); (13, (1, 0.0107%float))])].

Definition table_CH_exact : abundance_table Qc :=
  [("C"%string, [(12, (0, Q2Qc (99 # 100))); (13, (1, Q2Qc (1 # 100)))]);
   ("H"%string, [(1, (0, 1%Qc))])].

(** Conversions for the examples: [int] on the unsigned decimal numerals,
    [float] on the three numerals of the worked example; every other text
    is refused. *)
Definition int_of_numeral (s : string) : result Z :=
  if decide (s = EmptyString) then Raise (ValueError_int s)
  else if all_digits s then py_int s else Raise (ValueError_int s).

Definition float_of_numeral (s : string) : result float :=
  if decide (s = "0.99"%string) then Ok 0.99%float
  else if decide (s = "0.01"%string) then Ok 0.01%float
  else if decide (s = "1.0"%string) then Ok 1.0%float
  else Raise (ValueError_int s).

Definition rows_CH : list table_row :=
  [ {| row_element := "C"; row_isotope := "12";
       row_mass_shift := "0"; row_abundance := "0.99" |};
    {| row_element := "H"; row_isotope := "1";
       row_mass_shift := "0"; row_abundance := "1.0" |};
    {| row_element := "C"; row_isotope := "13";
       row_mass_shift := "1"; row_abundance := "0.01" |} ].

Definition formula_C1N0 : dict string Z := [("C"%string, 1); ("N"%string, 0)].

Definition formula_C1H0 : dict string Z := [("C"%string, 1); ("H"%string, 0)].

Definition formula_H2 : dict string Z := [("H"%string, 2)].

Definition formula_H4C : dict string Z := [("H"%string, 4); ("C"%string, 1)].

(** A table with an element that has no isotope. *)
Definition table_X : abundance_table float :=
  [("C"%string, [(12, (0, 0.99%float)); (13, (1, 0.01%float))]);
   ("X"%string, [])].

Definition formula_CX : dict string Z := [("C"%string, 2); ("X"%string, 1)].

(** * Properties *)

(** ** Dictionaries *)

Section DictFacts.
Context {K V : Type} `{EqDecision K}.
Implicit Types (d : dict K V) (k : K) (v : V).

Lemma dict_lookup_None d k : dict_lookup d k = None ↔ k ∉ keys d.
Proof.
  induction d as [|[k' v'] d IH]; simpl.
  - split; [intros _; apply not_elem_of_nil|done].
  - rewrite not_elem_of_cons. destruct (decide (k = k')); [|tauto].
    split; [done|tauto].
Qed.

Lemma dict_lookup_Some_elem d k v : dict_lookup d k = Some v → (k, v) ∈ d.
Proof.
  induction d as [|[k' v'] d IH]; simpl; [done|].
  destruct (decide (k = k')) as [->|].
  - intros [= ->]. left.
  - intros Hd. right. auto.
Qed.

Lemma dict_lookup_set_eq d k v : dict_lookup (dict_set d k v) k = Some v.
Proof.
  induction d as [|[k' v'] d IH]; simpl.
  - by rewrite decide_True.
  - destruct (decide (k = k')) as [->|Hne]; simpl.
    + by rewrite decide_True.
    + by rewrite decide_False.
Qed.

Lemma dict_lookup_set_ne d k k' v :
  k ≠ k' → dict_lookup (dict_set d k v) k' = dict_lookup d k'.
Proof.
  intros Hne. induction d as [|[k0 v0] d IH]; simpl.
  - by rewrite decide_False.
  - destruct (decide (k = k0)) as [->|]; simpl.
    + by rewrite !decide_False.
    + by rewrite IH.
Qed.

Lemma dict_set_present d k v :
  dict_lookup d k = Some v → dict_set d k v = d.
Proof.
  induction d as [|[k' v'] d IH]; simpl; [done|].
  destruct (decide (k = k')) as [->|].
  - by intros [= ->].
  - intros Hd. by rewrite IH.
Qed.

Lemma dict_set_absent d k v :
  dict_lookup d k = None → dict_set d k v = d ++ [(k, v)].
Proof.
  induction d as [|[k' v'] d IH]; simpl; [done|].
  destruct (decide (k = k')); [done|].
  intros Hd. by rewrite IH.
Qed.

Lemma keys_dict_set_present d k v v' :
  dict_lookup d k = Some v' → keys (dict_set d k v) = keys d.
Proof.
  induction d as [|[k' v0] d IH]; simpl; [done|].
  destruct (decide (k = k')); [done|].
  intros Hd. simpl. by rewrite IH.
Qed.

Lemma dict_wf_set d k v : dict_wf d → dict_wf (dict_set d k v).
Proof.
  unfold dict_wf. intros Hwf.
  destruct (dict_lookup d k) as [v'|] eqn:Hd.
  - by rewrite (keys_dict_set_present _ _ _ v').
  - rewrite dict_set_absent by done. unfold keys. rewrite fmap_app. simpl.
    apply NoDup_app. split_and!; [done| |apply NoDup_singleton].
    intros k' Hk' ->%list_elem_of_singleton.
    by apply dict_lookup_None in Hd.
Qed.

End DictFacts.

(** ** The formula parser *)

Lemma span_digits_spec (s num rest : string) :
  span_digits s = (num, rest) →
  s = (num ++ rest)%string ∧ all_digits num = true
  ∧ (String.length num + String.length rest = String.length s)%nat.
Proof.
  revert num rest. induction s as [|c s IH]; intros num rest; simpl.
  - by intros [= <- <-].
  - destruct (is_digit c) eqn:Hc.
    + destruct (span_digits s) as [num' rest'].
      intros [= <- <-]. destruct (IH _ _ eq_refl) as (-> & Hd & Hlen).
      simpl. rewrite Hc, Hd. split_and!; [done..|lia].
    + by intros [= <- <-].
Qed.

Lemma PATTERN_match_spec (s atom num rest : string) :
  PATTERN_match s = Some (atom, num, rest) →
  s = (atom ++ num ++ rest)%string ∧ all_digits num = true
  ∧ (String.length num + String.length rest < String.length s)%nat.
Proof.
  destruct s as [|c s]; simpl; [done|].
  destruct (is_upper c); [|done].
  destruct s as [|d s'].
  - cbn. intros [= <- <- <-]. split_and!; [done..|simpl; lia].
  - destruct (is_lower d).
    + destruct (span_digits s') as [num' rest'] eqn:Hspan.
      intros [= <- <- <-]. apply span_digits_spec in Hspan as (-> & ? & ?).
      simpl. split_and!; [done..|lia].
    + destruct (span_digits (String d s')) as [num' rest'] eqn:Hspan.
      intros [= <- <- <-]. apply span_digits_spec in Hspan as (Hs & ? & ?).
      simpl in *. rewrite Hs. split_and!; [done..|lia].
Qed.

(** Fuel beyond the length of the text changes nothing. *)
Lemma findall_from_fuel (n fuel1 fuel2 : nat) (s : string) :
  (String.length s ≤ n)%nat →
  (String.length s ≤ fuel1)%nat → (String.length s ≤ fuel2)%nat →
  findall_from fuel1 s = findall_from fuel2 s.
Proof.
  revert fuel1 fuel2 s.
  induction n as [|n IH]; intros fuel1 fuel2 s Hn H1 H2.
  - destruct s; simpl in *; [|lia]. by destruct fuel1, fuel2.
  - destruct s as [|c s]; [by destruct fuel1, fuel2|].
    destruct fuel1 as [|fuel1], fuel2 as [|fuel2]; simpl in H1, H2; [lia..|].
    cbn [findall_from].
    destruct (PATTERN_match (String c s)) as [[[atom num] rest]|] eqn:Hm.
    + apply PATTERN_match_spec in Hm as (_ & _ & Hlen). simpl in *.
      f_equal. apply IH; lia.
    + simpl in Hn. apply IH; lia.
Qed.

Lemma PATTERN_findall_nil : PATTERN_findall EmptyString = [].
Proof. reflexivity. Qed.

Lemma PATTERN_findall_match (s atom num rest : string) :
  PATTERN_match s = Some (atom, num, rest) →
  PATTERN_findall s = (atom, num) :: PATTERN_findall rest.
Proof.
  intros Hm. unfold PATTERN_findall.
  destruct s as [|c s]; [done|]. cbn [String.length findall_from].
  rewrite Hm. f_equal.
  apply PATTERN_match_spec in Hm as (_ & _ & Hlen). simpl in Hlen.
  apply (findall_from_fuel (String.length s)); lia.
Qed.

Lemma PATTERN_findall_skip (c : ascii) (s : string) :
  PATTERN_match (String c s) = None →
  PATTERN_findall (String c s) = PATTERN_findall s.
Proof.
  intros Hm. unfold PATTERN_findall. cbn [String.length findall_from].
  by rewrite Hm.
Qed.

(** Every second group is a string of digits no longer than the text. *)
Lemma PATTERN_findall_digits (s atom num : string) :
  (atom, num) ∈ PATTERN_findall s →
  all_digits num = true ∧ (String.length num ≤ String.length s)%nat.
Proof.
  remember (String.length s) as n eqn:Hn.
  assert (String.length s ≤ n)%nat as Hle by lia. clear Hn.
  revert s Hle. induction n as [|n IH]; intros s Hle.
  - destruct s; simpl in Hle; [|lia]. by intros ?%elem_of_nil.
  - destruct s as [|c s]; [by intros ?%elem_of_nil|].
    destruct (PATTERN_match (String c s)) as [[[atom' num'] rest]|] eqn:Hm.
    + rewrite (PATTERN_findall_match _ _ _ _ Hm).
      apply PATTERN_match_spec in Hm as (_ & Hd & Hlen). simpl in *.
      intros [[= -> ->]|Hin]%elem_of_cons; [split; [done|lia]|].
      destruct (IH rest) as [? ?]; [lia|done|]. split; [done|lia].
    + rewrite (PATTERN_findall_skip _ _ Hm). intros Hin. simpl in *.
      destruct (IH s) as [? ?]; [lia|done|]. split; [done|lia].
Qed.

(** Matches of the pattern: a symbol of two letters, digits that follow a
    symbol, and characters that belong to no match (a bracket and the digit
    after it, a lower-case letter that follows no upper-case letter). *)
Example PATTERN_findall_examples :
  PATTERN_findall "C6H12O6"
  = [("C", "6"); ("H", "12"); ("O", "6")]%string
  ∧ PATTERN_findall "NaCl" = [("Na", ""); ("Cl", "")]%string
  ∧ PATTERN_findall "Fe2(SO4)3"
    = [("Fe", "2"); ("S", ""); ("O", "4")]%string
  ∧ PATTERN_findall "h2O" = [("O", "")]%string
  ∧ PATTERN_findall "CHC3" = [("C", ""); ("H", ""); ("C", "3")]%string.
Proof. split_and!; reflexivity. Qed.

(** *** The dictionary comprehension *)

Lemma is_digit_code (c : ascii) : is_digit c = true → 48 ≤ code c ≤ 57.
Proof. unfold is_digit. lia. Qed.

Lemma digits_value_zero (num : string) (acc : Z) :
  all_digits num = true → 0 ≤ acc →
  0 ≤ digits_value acc num
  ∧ (digits_value acc num = 0 ↔ acc = 0 ∧ all_zeros num = true).
Proof.
  revert acc. induction num as [|c num IH]; intros acc Hd Hacc; simpl in *.
  - split; [done|]. tauto.
  - apply andb_true_iff in Hd as [Hc%is_digit_code Hd].
    destruct (IH (10 * acc + (code c - 48)) Hd) as [Hpos Hzero]; [lia|].
    split; [done|]. rewrite Hzero, andb_true_iff, Z.eqb_eq.
    destruct (all_zeros num); intuition lia.
Qed.

Lemma count_of_value (num : string) (n : Z) :
  count_of num = Ok n → n = count_value num.
Proof.
  unfold count_of, count_value, py_int.
  destruct (decide (num = EmptyString)); [by intros [= <-]|].
  destruct (int_max_str_digits <? _); [done|]. by intros [= <-].
Qed.

Lemma count_of_returns (num : string) :
  Z.of_nat (String.length num) ≤ int_max_str_digits →
  count_of num = Ok (count_value num).
Proof.
  intros Hlen. unfold count_of, count_value, py_int.
  destruct (decide (num = EmptyString)); [done|].
  by destruct (Z.ltb_spec int_max_str_digits (Z.of_nat (String.length num)));
    [lia|].
Qed.

Lemma last_occurrence_elem (atom num : string)
    (matches : list (string * string)) :
  last_occurrence atom matches = Some num → (atom, num) ∈ matches.
Proof.
  induction matches as [|[atom' num'] matches IH]; simpl; [done|].
  destruct (last_occurrence atom matches) as [num0|].
  - intros [= ->]. right. auto.
  - destruct (decide (atom = atom')) as [->|]; [|done].
    intros [= ->]. left.
Qed.

Lemma last_occurrence_None (atom : string) (matches : list (string * string)) :
  last_occurrence atom matches = None ↔ atom ∉ matches.*1.
Proof.
  induction matches as [|[atom' num'] matches IH]; simpl.
  - split; [intros _; apply not_elem_of_nil|done].
  - rewrite not_elem_of_cons.
    destruct (last_occurrence atom matches) as [num0|].
    + split; [done|]. intros [_ Hn]. by apply IH in Hn.
    + destruct (decide (atom = atom')); [|tauto].
      split; [done|tauto].
Qed.

(** The loop of the comprehension: a key is bound to the count of its last
    occurrence, and a key without occurrence keeps its binding. *)
Lemma comprehension_spec (matches : list (string * string))
    (out out' : dict string Z) :
  comprehension matches out = Ok out' →
  dict_wf out →
  dict_wf out'
  ∧ ∀ atom, dict_lookup out' atom
            = match last_occurrence atom matches with
              | Some num => Some (count_value num)
              | None => dict_lookup out atom
              end.
Proof.
  revert out. induction matches as [|[a num] matches IH]; intros out; simpl.
  - by intros [= <-].
  - destruct (count_of num) as [n|e] eqn:Hn; [|done]. simpl.
    apply count_of_value in Hn as ->.
    intros Hc Hwf.
    destruct (IH _ Hc (dict_wf_set _ a _ Hwf)) as [Hwf' Hlook].
    split; [done|]. intros atom. rewrite Hlook.
    destruct (last_occurrence atom matches); [done|].
    destruct (decide (atom = a)) as [->|Hne].
    + apply dict_lookup_set_eq.
    + by apply dict_lookup_set_ne.
Qed.

Lemma comprehension_returns (matches : list (string * string))
    (out : dict string Z) :
  Forall (fun m => Z.of_nat (String.length m.2) ≤ int_max_str_digits) matches →
  ∃ out', comprehension matches out = Ok out'.
Proof.
  intros Hall. revert out.
  induction Hall as [|[a num] matches Hlen _ IH]; intros out; simpl.
  - by eexists.
  - rewrite count_of_returns by done. apply IH.
Qed.

(** The parser returns on every formula of at most 4300 characters. *)
Lemma parseFormula_returns (formula : string) :
  Z.of_nat (String.length formula) ≤ int_max_str_digits →
  ∃ out, _parseFormula formula = Ok out.
Proof.
  intros Hlen. apply comprehension_returns, Forall_forall.
  intros [atom num] [_ Hnum]%PATTERN_findall_digits. simpl. lia.
Qed.

Lemma filter_eq_absent {A} `{EqDecision A} (x : A) (l : list A) :
  x ∉ l → filter (fun y => y = x) l = [].
Proof.
  induction l as [|y l IH]; [done|].
  rewrite not_elem_of_cons. intros [Hne Hx].
  rewrite filter_cons, decide_False by done. auto.
Qed.

Lemma NoDup_filter_eq_length {A} `{EqDecision A} (x : A) (l : list A) :
  NoDup l → x ∈ l → length (filter (fun y => y = x) l) = 1%nat.
Proof.
  induction 1 as [|y l Hy Hl IH]; [by intros ?%elem_of_nil|].
  rewrite filter_cons. intros [->|Hx]%elem_of_cons.
  - rewrite decide_True by done. simpl. by rewrite filter_eq_absent.
  - rewrite decide_False by (by intros ->). auto.
Qed.

(** C10: in the mapping returned by the parser every element symbol of the
    formula occurs exactly once, and its count is the one attached to the
    last occurrence of the symbol in the formula; the counts of earlier
    occurrences are dropped. *)
Theorem parseFormula_last_occurrence (formula : string) (out : dict string Z) :
  _parseFormula formula = Ok out →
  dict_wf out
  ∧ (∀ atom, dict_lookup out atom
             = count_value <$> last_occurrence atom (PATTERN_findall formula))
  ∧ (∀ atom, atom ∈ (PATTERN_findall formula).*1 →
             length (filter (fun k => k = atom) (keys out)) = 1%nat).
Proof.
  intros Hp.
  destruct (comprehension_spec _ _ _ Hp) as [Hwf Hlook]; [constructor|].
  assert (∀ atom, dict_lookup out atom
     = count_value <$> last_occurrence atom (PATTERN_findall formula)) as Hl.
  { intros atom. rewrite Hlook.
    by destruct (last_occurrence atom (PATTERN_findall formula)). }
  split_and!; [done..|].
  intros atom Hin. apply NoDup_filter_eq_length; [done|].
  destruct (dict_lookup out atom) as [n|] eqn:Hd.
  - apply dict_lookup_Some_elem in Hd.
    apply list_elem_of_fmap. by exists (atom, n).
  - rewrite Hl in Hd. apply fmap_None, last_occurrence_None in Hd. done.
Qed.

Lemma parseFormula_last_occurrence_witness :
  _parseFormula "CHC3" = Ok [("C"%string, 3); ("H"%string, 1)]
  ∧ dict_lookup [("C"%string, 3); ("H"%string, 1)] "C"%string
    = count_value <$> last_occurrence "C" (PATTERN_findall "CHC3").
Proof.
  split; [reflexivity|].
  apply (parseFormula_last_occurrence "CHC3"). reflexivity.
Defined.

(** C7, as the code has it: every count in the mapping returned by the
    parser is a non-negative integer.  It is the count of the last
    occurrence of the symbol in the formula: 1 when no digit follows the
    symbol, the decimal value of the digits otherwise, and so 0 exactly
    when digits follow that are all zeros. *)
Theorem parseFormula_counts (formula : string) (out : dict string Z) :
  _parseFormula formula = Ok out →
  ∀ atom n, dict_lookup out atom = Some n →
    0 ≤ n
    ∧ ∃ num, last_occurrence atom (PATTERN_findall formula) = Some num
        ∧ all_digits num = true
        ∧ (num = EmptyString → n = 1)
        ∧ (num ≠ EmptyString → n = digits_value 0 num)
        ∧ (n = 0 ↔ num ≠ EmptyString ∧ all_zeros num = true).
Proof.
  intros Hp atom n Hd.
  destruct (comprehension_spec _ _ _ Hp) as [_ Hlook]; [constructor|].
  rewrite Hlook in Hd.
  destruct (last_occurrence atom (PATTERN_findall formula)) as [num|] eqn:Hl;
    [|done].
  injection Hd as <-.
  destruct (PATTERN_findall_digits formula atom num) as [Hdig _];
    [by apply last_occurrence_elem|].
  destruct (digits_value_zero num 0 Hdig) as [Hpos Hzero]; [done|].
  unfold count_value. destruct (decide (num = EmptyString)) as [->|Hne].
  - split; [done|]. exists EmptyString. split_and!; try done. split; [done|].
    by intros [? _].
  - split; [done|]. exists num. split_and!; try done. rewrite Hzero. tauto.
Qed.

Lemma parseFormula_counts_witness :
  _parseFormula "C0H2O" = Ok [("C"%string, 0); ("H"%string, 2); ("O"%string, 1)]
  ∧ dict_lookup [("C"%string, 0); ("H"%string, 2); ("O"%string, 1)] "C"%string
    = Some 0
  ∧ 0 ≤ 0
  ∧ ∃ num, last_occurrence "C" (PATTERN_findall "C0H2O") = Some num
      ∧ all_digits num = true
      ∧ (num = EmptyString → 0 = 1)
      ∧ (num ≠ EmptyString → 0 = digits_value 0 num)
      ∧ (0 = 0 ↔ num ≠ EmptyString ∧ all_zeros num = true).
Proof.
  split; [reflexivity|]. split; [reflexivity|].
  apply (parseFormula_counts "C0H2O" _ eq_refl "C"%string 0 eq_refl).
Defined.

(** C7, as stated, fails: the formula [C0] is mapped to {C: 0}. *)
Lemma parseFormula_zero_count :
  _parseFormula "C0" = Ok [("C"%string, 0)]
  ∧ ¬ (∀ formula out, _parseFormula formula = Ok out →
       ∀ atom n, dict_lookup out atom = Some n → 1 ≤ n).
Proof.
  split; [reflexivity|]. intros Hall.
  specialize (Hall "C0"%string _ eq_refl "C"%string 0 eq_refl). lia.
Qed.

(** ** The evaluator *)

Section EvaluatorFacts.
Context {F : Type} `{Arith F}.

Lemma getOneIsotopomer_loop (atoms : isotopomer F) (m s : Z) (a : F) :
  fold_left
    (fun '(mass, shift, abundance) '(iso, ms, ab) =>
       (mass + iso, shift + ms, fmul abundance ab))
    atoms (m, s, a)
  = (m + sum_Z (choice_mass <$> atoms),
     s + sum_Z (choice_shift <$> atoms),
     fold_left fmul (choice_abundance <$> atoms) a).
Proof.
  revert m s a.
  induction atoms as [|[[iso ms] ab] atoms IH]; intros m s a; simpl.
  - by rewrite !Z.add_0_r.
  - rewrite IH. unfold choice_mass, choice_shift, choice_abundance; simpl.
    by rewrite !Z.add_assoc.
Qed.

(** C1: the evaluator returns (sum of the isotope masses, sum of the mass
    shifts, product of the abundances), the product being taken from left
    to right starting at 1.0; on the empty isotopomer it returns
    (0, 0, 1.0). *)
Theorem getOneIsotopomer_sums_product (atoms : isotopomer F) :
  _getOneIsotopomer atoms
  = (sum_Z (choice_mass <$> atoms),
     sum_Z (choice_shift <$> atoms),
     fprod (choice_abundance <$> atoms))
  /\ _getOneIsotopomer (F := F) [] = (0, 0, fone).
Proof.
  split; [|reflexivity].
  unfold _getOneIsotopomer. by rewrite getOneIsotopomer_loop.
Qed.

End EvaluatorFacts.

(** ** The congruency check *)

Section CongruencyFacts.
Context {F : Type} `{Arith F}.
Implicit Types (formula : dict string Z) (abundance : abundance_table F).

Lemma missing_elem formula abundance (atom : string) :
  atom ∈ (list_to_set (keys formula) ∖ list_to_set (keys abundance)
          : gset string)
  ↔ atom ∈ keys formula ∧ atom ∉ keys abundance.
Proof. by rewrite elem_of_difference, !elem_of_list_to_set. Qed.

Lemma checkCongruency_Ok formula abundance :
  _checkCongruency formula abundance = Ok () ↔ congruent formula abundance.
Proof.
  unfold _checkCongruency, congruent.
  destruct (decide (_ ≠ ∅)) as [Hne|Heq%dec_stable].
  - split; [done|]. intros Hall.
    apply set_choose_L in Hne as [atom [Hin Hout]%missing_elem].
    by apply Hall in Hin.
  - split; [|done]. intros _ atom Hin.
    destruct (decide (atom ∈ keys abundance)) as [|Hout]; [done|].
    assert (atom ∈ (∅ : gset string)) as []%not_elem_of_empty.
    rewrite <- Heq. by apply missing_elem.
Qed.

Lemma checkCongruency_Raise formula abundance (e : exn) :
  _checkCongruency formula abundance = Raise e →
  ∃ missing : gset string,
    e = MissingAbundances missing ∧ missing ≠ ∅
    ∧ ∀ atom, atom ∈ missing ↔ atom ∈ keys formula ∧ atom ∉ keys abundance.
Proof.
  unfold _checkCongruency. destruct (decide (_ ≠ ∅)) as [Hne|]; [|done].
  intros [= <-]. eexists. split_and!; [done..|]. apply missing_elem.
Qed.

(** C4: the congruency check raises exactly when some key of the formula
    is not a key of the abundance table; the exception carries the set of
    all the missing elements; when no element is missing the check returns
    without effect; and when it raises, [_main] ends with that exception
    and no isotopomer has been handed to the evaluator. *)
Theorem checkCongruency_spec formula abundance :
  ((∃ e, _checkCongruency formula abundance = Raise e)
   ↔ ∃ atom, atom ∈ keys formula ∧ atom ∉ keys abundance)
  ∧ (∀ e, _checkCongruency formula abundance = Raise e →
       ∃ missing : gset string,
         e = MissingAbundances missing
         ∧ ∀ atom, atom ∈ missing
                   ↔ atom ∈ keys formula ∧ atom ∉ keys abundance)
  ∧ (congruent formula abundance ↔ _checkCongruency formula abundance = Ok ())
  ∧ (∀ e text cpus,
       _parseFormula text = Ok formula →
       _checkCongruency formula abundance = Raise e →
       _main text abundance cpus = {| evaluated := []; outcome := Raise e |}).
Proof.
  split_and!.
  - split.
    + intros [e (missing & _ & Hne & Hm)%checkCongruency_Raise].
      apply set_choose_L in Hne as [atom Hin]. exists atom. by apply Hm.
    + intros (atom & Hin & Hout).
      destruct (_checkCongruency formula abundance) as [[]|e] eqn:Hc;
        [|by exists e].
      apply checkCongruency_Ok in Hc. by apply Hc in Hin.
  - intros e (missing & ? & _ & ?)%checkCongruency_Raise. by exists missing.
  - symmetry. apply checkCongruency_Ok.
  - intros e text cpus Hp Hc. unfold _main. by rewrite Hp, Hc.
Qed.

End CongruencyFacts.

(** ** The expander *)

Section ExpanderFacts.
Context {F : Type} `{Arith F}.
Implicit Types (formula : dict string Z) (abdTable : abundance_table F).

Lemma length_bind_const {A B} (f : A → list B) (l : list A) (n : nat) :
  (∀ x, length (f x) = n) → length (l ≫= f) = (length l * n)%nat.
Proof.
  intros Hf. induction l as [|x l IH]; csimpl; [done|].
  by rewrite length_app, Hf, IH.
Qed.

(** The number of tuples of a product is the product of the sizes of the
    pools. *)
Lemma length_product {A} (pools : list (list A)) :
  length (product pools)
  = foldr (fun pool acc => (length pool * acc)%nat) 1%nat pools.
Proof.
  induction pools as [|pool pools IH]; simpl; [done|].
  rewrite (length_bind_const _ _ (length (product pools))).
  - by rewrite IH.
  - intros x. apply length_fmap.
Qed.

(** The tuples of a product are the lists that take one element in each
    pool. *)
Lemma elem_of_product {A} (pools : list (list A)) (atoms : list A) :
  atoms ∈ product pools ↔ Forall2 (fun x pool => x ∈ pool) atoms pools.
Proof.
  revert atoms. induction pools as [|pool pools IH]; intros atoms; simpl.
  - rewrite list_elem_of_singleton. split; [by intros ->|].
    apply Forall2_nil_inv_r.
  - rewrite list_elem_of_bind. split.
    + intros (x & (atoms' & -> & Hin)%list_elem_of_fmap & Hx).
      constructor; [done|]. by apply IH.
    + intros (x & atoms' & Hx & Hall & ->)%Forall2_cons_inv_r.
      exists x. split; [|done]. apply list_elem_of_fmap.
      exists atoms'. split; [done|]. by apply IH.
Qed.

(** No tuple is produced twice when no pool repeats an element. *)
Lemma NoDup_product {A} (pools : list (list A)) :
  Forall NoDup pools → NoDup (product pools).
Proof.
  induction 1 as [|pool pools Hpool _ IH]; simpl; [apply NoDup_singleton|].
  apply NoDup_bind; [| |done].
  - intros x1 x2 atoms _ _ (a1 & -> & _)%list_elem_of_fmap
      (a2 & [= -> _] & _)%list_elem_of_fmap. done.
  - intros x _. apply NoDup_fmap_2_strong; [|done]. by intros ?? _ _ [= ->].
Qed.

Lemma isotopes_of_lookup abdTable (atom : string) (isotopes : dict Z (Z * F)) :
  dict_lookup abdTable atom = Some isotopes →
  isotopes_of abdTable atom = isotopes.
Proof. intros Hl. unfold isotopes_of, dict_get. by rewrite Hl. Qed.

(** The first loop of [genArgs] appends the slots of the formula. *)
Lemma expand_congruent abdTable (items : list (string * Z))
    (expanded_formula : list (list (choice F))) :
  congruent items abdTable →
  expand abdTable items expanded_formula
  = Ok (expanded_formula ++ slots items abdTable).
Proof.
  revert expanded_formula.
  induction items as [|[atom num] items IH]; intros acc Hc; simpl.
  - by rewrite app_nil_r.
  - destruct (dict_lookup abdTable atom) as [isotopes|] eqn:Hl.
    + rewrite IH.
      * by rewrite <- app_assoc, (isotopes_of_lookup _ _ _ Hl).
      * intros a Ha. apply Hc. by right.
    + apply dict_lookup_None in Hl. destruct Hl. apply Hc. left.
Qed.

Lemma genArgs_congruent formula abdTable :
  congruent formula abdTable →
  genArgs formula abdTable = Ok (product (slots formula abdTable)).
Proof.
  intros Hc. unfold genArgs. by rewrite expand_congruent.
Qed.

Lemma pool_sizes_replicate {A} (pool : list A) (n acc : nat) :
  foldr (fun pool acc => (length pool * acc)%nat) acc (replicate n pool)
  = (length pool ^ n * acc)%nat.
Proof.
  induction n as [|n IH]; simpl; [lia|]. rewrite IH. lia.
Qed.

Lemma pool_sizes_slots formula abdTable :
  foldr (fun pool acc => (length pool * acc)%nat) 1%nat
        (slots formula abdTable)
  = space_size formula abdTable.
Proof.
  induction formula as [|[atom num] formula IH]; [done|].
  unfold slots. rewrite bind_cons, foldr_app. fold (slots formula abdTable).
  rewrite IH, pool_sizes_replicate. simpl. unfold choices.
  by rewrite length_fmap.
Qed.

Lemma NoDup_choices (isotopes : dict Z (Z * F)) :
  dict_wf isotopes → NoDup (choices isotopes).
Proof.
  unfold dict_wf, keys, choices. intros Hwf.
  apply (NoDup_fmap_1 choice_mass). rewrite <- list_fmap_compose.
  erewrite list_fmap_ext; [exact Hwf|]. by intros _ [iso [shift ab]] _.
Qed.

(** C3: for a formula whose elements all have an entry in the abundance
    table, the expander yields exactly the product over the elements of
    (number of isotopes) ^ (atom count) isotopomers; they are the lists
    that take, in every slot of every element, one of the choices of that
    element, and none of them is yielded twice. *)
Theorem genArgs_complete formula abdTable :
  congruent formula abdTable →
  ∃ isos,
    genArgs formula abdTable = Ok isos
    ∧ length isos = space_size formula abdTable
    ∧ (∀ atoms, atoms ∈ isos
         ↔ Forall2 (fun c pool => c ∈ pool) atoms (slots formula abdTable))
    ∧ ((∀ atom, dict_wf (isotopes_of abdTable atom)) → NoDup isos).
Proof.
  intros Hc. exists (product (slots formula abdTable)). split_and!.
  - by apply genArgs_congruent.
  - by rewrite length_product, pool_sizes_slots.
  - apply elem_of_product.
  - intros Hwf. apply NoDup_product, Forall_forall.
    intros pool ([atom num] & Hpool & _)%list_elem_of_bind.
    apply elem_of_replicate_inv in Hpool as ->.
    apply NoDup_choices, Hwf.
Qed.

End ExpanderFacts.

(** ** The aggregator *)

Lemma getMassShiftAbundances_pool (F : Type) `{Arith F}
    (formula : dict string Z) (abdTable : abundance_table F) (cpus : Z) :
  1 ≤ cpus →
  _getMassShiftAbundances formula abdTable cpus
  = match genArgs formula abdTable with
    | Ok isos =>
        {| evaluated := isos;
           outcome := combine (_getOneIsotopomer <$> isos) [] |}
    | Raise e => {| evaluated := []; outcome := Raise e |}
    end.
Proof.
  intros Hcpus. unfold _getMassShiftAbundances, pool_map.
  destruct (Z.ltb_spec cpus 1) as [?|_]; [lia|].
  by destruct (genArgs formula abdTable).
Qed.

Section AggregatorFacts.
Context {F : Type} `{Arith F}.
Implicit Types (out d : distribution F) (r : isotopomer_result F).
Implicit Types (formula : dict string Z) (abdTable : abundance_table F).

Lemma dict_set_set {K V} `{EqDecision K} (d0 : dict K V) (k : K) (v v' : V) :
  dict_set (dict_set d0 k v) k v' = dict_set d0 k v'.
Proof.
  induction d0 as [|[k0 v0] d0 IH]; simpl.
  - by rewrite decide_True.
  - destruct (decide (k = k0)) as [->|]; simpl.
    + by rewrite decide_True.
    + by rewrite decide_False, IH.
Qed.

(** The two assignments of the loop body amount to one; the subscript
    never fails. *)
Lemma accumulate_Ok out r :
  accumulate out r
  = Ok (dict_set out (result_key r)
          (fadd (dict_get out (result_key r) fzero) (result_abundance r))).
Proof.
  destruct r as [[mass shift] abundance]. unfold accumulate.
  rewrite dict_lookup_set_eq. cbn. by rewrite dict_set_set.
Qed.

Lemma dict_get_set_eq {K V} `{EqDecision K} (d0 : dict K V) (k : K) (v dflt : V) :
  dict_get (dict_set d0 k v) k dflt = v.
Proof. unfold dict_get. by rewrite dict_lookup_set_eq. Qed.

Lemma dict_get_set_ne {K V} `{EqDecision K} (d0 : dict K V) (k k' : K)
    (v dflt : V) :
  k ≠ k' → dict_get (dict_set d0 k v) k' dflt = dict_get d0 k' dflt.
Proof. intros Hne. unfold dict_get. by rewrite dict_lookup_set_ne. Qed.

(** The second loop: it never raises, it keeps the keys distinct, and the
    value of a key is the value it had (0 if it was absent) to which the
    abundances of the results on that key have been added one after the
    other; a key without result keeps its state. *)
Lemma combine_spec (results : list (isotopomer_result F)) out :
  ∃ d, combine results out = Ok d
    ∧ (dict_wf out → dict_wf d)
    ∧ ∀ key, dict_lookup d key
             = match contributions key results with
               | [] => dict_lookup out key
               | abundances =>
                   Some (fold_left fadd abundances (dict_get out key fzero))
               end.
Proof.
  revert out. induction results as [|r results IH]; intros out; simpl.
  - by exists out.
  - rewrite accumulate_Ok. simpl.
    destruct (IH (dict_set out (result_key r)
                    (fadd (dict_get out (result_key r) fzero)
                          (result_abundance r)))) as (d & -> & Hwf & Hlook).
    exists d. split_and!; [done|by intros Hw; apply Hwf, dict_wf_set|].
    intros key. rewrite Hlook. unfold contributions. rewrite filter_cons.
    destruct (decide (result_key r = key)) as [<-|Hne].
    + rewrite fmap_cons, dict_lookup_set_eq, dict_get_set_eq.
      by destruct (result_abundance <$> filter _ results).
    + by rewrite dict_lookup_set_ne, dict_get_set_ne.
Qed.

(** C2: the distribution returned maps every key (mass, shift) to the sum,
    started at 0 and taken in the order of enumeration, of the abundances
    of the enumerated isotopomers whose total mass and total shift are
    that key; a key on which no isotopomer falls is absent; no key occurs
    twice. *)
Theorem getMassShiftAbundances_sums formula abdTable (cpus : Z) :
  congruent formula abdTable → 1 ≤ cpus →
  ∃ isos d,
    genArgs formula abdTable = Ok isos
    ∧ outcome (_getMassShiftAbundances formula abdTable cpus) = Ok d
    ∧ dict_wf d
    ∧ ∀ mass shift,
        dict_lookup d (mass, shift)
        = match contributions (mass, shift) (_getOneIsotopomer <$> isos) with
          | [] => None
          | abundances => Some (fsum abundances)
          end.
Proof.
  intros Hc Hcpus. rewrite getMassShiftAbundances_pool by done.
  rewrite genArgs_congruent by done.
  destruct (combine_spec (_getOneIsotopomer <$> product (slots formula abdTable))
              []) as (d & Hd & Hwf & Hlook).
  exists (product (slots formula abdTable)), d.
  split_and!; [done|done|apply Hwf; constructor|].
  intros mass shift. apply Hlook.
Qed.

End AggregatorFacts.

(** *** Arithmetic without rounding *)

Section ExactFacts.
Context {F : Type} `{ExactArith F}.
Implicit Types (x y z : F) (l : list F).
Implicit Types (formula : dict string Z) (abdTable : abundance_table F).

Lemma fadd_zero_r x : fadd x fzero = x.
Proof. by rewrite fadd_comm, fadd_zero_l. Qed.

Lemma fmul_one_r x : fmul x fone = x.
Proof. by rewrite fmul_comm, fmul_one_l. Qed.

Lemma fmul_zero_r x : fmul x fzero = fzero.
Proof. by rewrite fmul_comm, fmul_zero_l. Qed.

Lemma fmul_add_distr_l x y z : fmul x (fadd y z) = fadd (fmul x y) (fmul x z).
Proof. by rewrite !(fmul_comm x), fmul_add_distr_r. Qed.

Lemma fold_left_fadd l x : fold_left fadd l x = fadd x (fsum l).
Proof.
  unfold fsum. revert x. induction l as [|y l IH]; intros x; simpl.
  - by rewrite fadd_zero_r.
  - by rewrite (IH (fadd x y)), (IH (fadd fzero y)), fadd_zero_l, fadd_assoc.
Qed.

Lemma fsum_nil : fsum [] = fzero.
Proof. reflexivity. Qed.

Lemma fsum_cons x l : fsum (x :: l) = fadd x (fsum l).
Proof.
  unfold fsum at 1. simpl. by rewrite fold_left_fadd, fadd_zero_l.
Qed.

Lemma fsum_app l1 l2 : fsum (l1 ++ l2) = fadd (fsum l1) (fsum l2).
Proof.
  induction l1 as [|x l1 IH]; simpl.
  - by rewrite fsum_nil, fadd_zero_l.
  - by rewrite !fsum_cons, IH, fadd_assoc.
Qed.

Lemma fsum_fmul_l x l : fsum (fmul x <$> l) = fmul x (fsum l).
Proof.
  induction l as [|y l IH]; csimpl.
  - by rewrite fsum_nil, fmul_zero_r.
  - by rewrite !fsum_cons, IH, fmul_add_distr_l.
Qed.

Lemma fold_left_fmul l x : fold_left fmul l x = fmul x (fprod l).
Proof.
  unfold fprod. revert x. induction l as [|y l IH]; intros x; simpl.
  - by rewrite fmul_one_r.
  - by rewrite (IH (fmul x y)), (IH (fmul fone y)), fmul_one_l, fmul_assoc.
Qed.

Lemma fprod_cons x l : fprod (x :: l) = fmul x (fprod l).
Proof.
  unfold fprod at 1. simpl. by rewrite fold_left_fmul, fmul_one_l.
Qed.

Lemma fpow_one (n : nat) : fpow fone n = fone.
Proof. induction n as [|n IH]; simpl; [done|]. by rewrite IH, fmul_one_l. Qed.

(** One step of the second loop adds the abundance to the total. *)
Lemma dist_total_set (out : distribution F) (key : Z * Z) x :
  dist_total (dict_set out key (fadd (dict_get out key fzero) x))
  = fadd (dist_total out) x.
Proof.
  unfold dist_total, values.
  induction out as [|[k0 v0] out IH].
  - simpl. by rewrite fsum_cons, fadd_zero_r.
  - unfold dict_get in *. cbn [dict_lookup dict_set].
    destruct (decide (key = k0)) as [->|Hne].
    + rewrite !fmap_cons, !fsum_cons. cbn [snd].
      by rewrite <- !fadd_assoc, (fadd_comm x).
    + rewrite !fmap_cons, !fsum_cons, IH. cbn [snd].
      by rewrite fadd_assoc.
Qed.

Lemma combine_total (results : list (isotopomer_result F))
    (out d : distribution F) :
  combine results out = Ok d →
  dist_total d = fadd (dist_total out) (fsum (result_abundance <$> results)).
Proof.
  revert out. induction results as [|r results IH]; intros out; simpl.
  - intros [= <-]. by rewrite fadd_zero_r.
  - rewrite accumulate_Ok. simpl. intros Hc%IH.
    by rewrite Hc, dist_total_set, fsum_cons, fadd_assoc.
Qed.

Lemma getOneIsotopomer_abundance (atoms : isotopomer F) :
  result_abundance (_getOneIsotopomer atoms)
  = fprod (choice_abundance <$> atoms).
Proof. unfold _getOneIsotopomer. by rewrite getOneIsotopomer_loop. Qed.

(** The abundances of the tuples of a product sum to the product of the
    sums of the pools. *)
Lemma fsum_product (pools : list (list (choice F))) :
  fsum ((fun atoms => fprod (choice_abundance <$> atoms)) <$> product pools)
  = pools_total pools.
Proof.
  induction pools as [|pool pools IH]; simpl.
  - by rewrite fsum_cons, fadd_zero_r.
  - rewrite <- IH. clear IH. induction pool as [|c pool IHpool]; csimpl.
    + by rewrite fsum_nil, fmul_zero_l.
    + rewrite fmap_app, fsum_app, IHpool, fsum_cons, fmul_add_distr_r.
      f_equal. rewrite <- fsum_fmul_l, <- !list_fmap_compose.
      f_equal. apply list_fmap_ext. intros _ atoms _. simpl.
      by rewrite fprod_cons.
Qed.

Lemma pools_total_replicate (pool : list (choice F)) (n : nat) x :
  foldr (fun pool acc => fmul (fsum (choice_abundance <$> pool)) acc)
        x (replicate n pool)
  = fmul (fpow (fsum (choice_abundance <$> pool)) n) x.
Proof.
  induction n as [|n IH]; simpl.
  - by rewrite fmul_one_l.
  - by rewrite IH, fmul_assoc.
Qed.

Lemma pools_total_slots formula abdTable :
  pools_total (slots formula abdTable) = expected_total formula abdTable.
Proof.
  unfold pools_total.
  induction formula as [|[atom num] formula IH]; [done|].
  unfold slots. rewrite bind_cons, foldr_app. fold (slots formula abdTable).
  by rewrite IH, pools_total_replicate.
Qed.

Lemma expected_total_normalized formula abdTable :
  (∀ atom, atom ∈ keys formula →
     fsum (choice_abundance <$> choices (isotopes_of abdTable atom)) = fone) →
  expected_total formula abdTable = fone.
Proof.
  induction formula as [|[atom num] formula IH]; intros Hone; [done|].
  simpl. rewrite Hone by left. rewrite fpow_one, fmul_one_l.
  apply IH. intros a Ha. apply Hone. by right.
Qed.

(** X22: in arithmetic without rounding, the values of the distribution
    returned sum to the product, over the elements of the formula, of (the
    sum of the abundances of the isotopes of the element) ^ (atom count);
    when the abundances of every element of the formula sum to 1, the
    values of the distribution sum to 1. *)
Theorem distribution_total formula abdTable (cpus : Z) :
  congruent formula abdTable → 1 ≤ cpus →
  ∃ d, outcome (_getMassShiftAbundances formula abdTable cpus) = Ok d
    ∧ dist_total d = expected_total formula abdTable
    ∧ ((∀ atom, atom ∈ keys formula →
          fsum (choice_abundance <$> choices (isotopes_of abdTable atom))
          = fone) →
       dist_total d = fone).
Proof.
  intros Hc Hcpus. rewrite getMassShiftAbundances_pool by done.
  rewrite genArgs_congruent by done. simpl.
  destruct (combine_spec (_getOneIsotopomer <$> product (slots formula abdTable))
              []) as (d & Hd & _).
  exists d. split; [done|].
  assert (dist_total d = expected_total formula abdTable) as Htotal.
  { rewrite (combine_total _ _ _ Hd). unfold dist_total at 1. simpl.
    rewrite fsum_nil, fadd_zero_l, <- list_fmap_compose.
    rewrite <- pools_total_slots, <- fsum_product. f_equal.
    apply list_fmap_ext. intros _ atoms _. simpl.
    apply getOneIsotopomer_abundance. }
  split; [done|]. intros Hone. rewrite Htotal.
  by apply expected_total_normalized.
Qed.

End ExactFacts.

(** The rationals are an arithmetic without rounding. *)
#[export] Instance exact_laws : ExactArith Qc.
Proof.
  split; simpl; intros.
  - apply Qcplus_comm.
  - apply Qcplus_assoc.
  - apply Qcplus_0_l.
  - apply Qcmult_comm.
  - apply Qcmult_assoc.
  - apply Qcmult_1_l.
  - apply Qcmult_0_l.
  - apply Qcmult_plus_distr_l.
Qed.

(** *** The list of results *)

Section PoolFacts.
Context {F : Type} `{Arith F}.
Implicit Types (formula : dict string Z) (abdTable : abundance_table F).


End PoolFacts.

(** C6: for the formula without atoms, whatever the abundance table, the
    expander yields one isotopomer, the empty one; it is the only one
    handed to the evaluator, and the distribution returned is
    {(0, 0): 1.0}. *)
Theorem empty_formula (abdTable : abundance_table float) (cpus : Z) :
  1 ≤ cpus →
  genArgs [] abdTable = Ok [[]]
  ∧ _getMassShiftAbundances [] abdTable cpus
    = {| evaluated := [[]]; outcome := Ok [((0, 0), 1.0%float)] |}.
Proof.
  intros Hcpus. rewrite getMassShiftAbundances_pool by done.
  split; reflexivity.
Qed.

Lemma empty_formula_witness :
  1 ≤ 1
  ∧ _getMassShiftAbundances [] table_CH 1
    = {| evaluated := [[]]; outcome := Ok [((0, 0), 1.0%float)] |}.
Proof.
  split; [lia|]. apply (empty_formula table_CH 1). lia.
Defined.

(** ** The worked example *)

(** C8: for the formula {C:1, H:4}, with C having the isotopes 12 (shift 0,
    abundance 0.99) and 13 (shift 1, abundance 0.01) and H the single
    isotope 1 (shift 0, abundance 1.0), the distribution returned is
    exactly {(16, 0): 0.99, (17, 1): 0.01}, and in binary64 its values sum
    to 1.0. *)
Theorem worked_example_CH4 (cpus : Z) :
  1 ≤ cpus →
  outcome (_getMassShiftAbundances formula_CH4 table_CH cpus)
  = Ok [((16, 0), 0.99%float); ((17, 1), 0.01%float)]
  ∧ dist_total [((16, 0), 0.99%float); ((17, 1), 0.01%float)] = 1.0%float.
Proof.
  intros Hcpus. rewrite getMassShiftAbundances_pool by done.
  split; vm_compute; reflexivity.
Qed.

Lemma worked_example_CH4_witness :
  1 ≤ 1
  ∧ outcome (_getMassShiftAbundances formula_CH4 table_CH 1)
    = Ok [((16, 0), 0.99%float); ((17, 1), 0.01%float)].
Proof.
  split; [lia|]. apply (worked_example_CH4 1). lia.
Defined.

(** ** Further properties of the formula parser *)

(** The keys of a dictionary after an assignment. *)
Lemma keys_dict_set {K V} `{EqDecision K} (d : dict K V) (k : K) (v : V) :
  keys (dict_set d k v) = if decide (k ∈ keys d) then keys d else keys d ++ [k].
Proof.
  destruct (dict_lookup d k) as [v'|] eqn:Hd.
  - rewrite (keys_dict_set_present _ _ _ v') by done.
    rewrite decide_True; [done|].
    apply dict_lookup_Some_elem in Hd. apply list_elem_of_fmap.
    by exists (k, v').
  - rewrite dict_set_absent by done. apply dict_lookup_None in Hd.
    rewrite decide_False by done. unfold keys. by rewrite fmap_app.
Qed.

(** Keys met one after the other: a key already there keeps its place, a
    new key goes last. *)
Lemma first_occurrences_step {A} `{EqDecision A} (seen : list A) (x : A)
    (l : list A) :
  let seen' := if decide (x ∈ seen) then seen else seen ++ [x] in
  seen' ++ filter (fun y => y ∉ seen') (first_occurrences l)
  = seen ++ filter (fun y => y ∉ seen) (first_occurrences (x :: l)).
Proof.
  simpl. destruct (decide (x ∈ seen)) as [Hin|Hout].
  - rewrite filter_cons_False by (by intros []).
    rewrite list_filter_filter_l; [done|]. by intros y Hy ->.
  - rewrite filter_cons_True by done. rewrite <- app_assoc. simpl.
    do 2 f_equal. rewrite list_filter_filter. apply list_filter_iff.
    intros y. rewrite elem_of_app, list_elem_of_singleton. tauto.
Qed.

Lemma first_occurrences_elem {A} `{EqDecision A} (x : A) (l : list A) :
  x ∈ first_occurrences l ↔ x ∈ l.
Proof.
  induction l as [|y l IH]; simpl; [done|].
  rewrite !elem_of_cons, list_elem_of_filter, IH.
  destruct (decide (x = y)); tauto.
Qed.

Lemma filter_all {A} (P : A → Prop) `{∀ x, Decision (P x)} (l : list A) :
  (∀ x, P x) → filter P l = l.
Proof.
  intros HP. induction l as [|x l IH]; [done|].
  by rewrite filter_cons_True, IH.
Qed.

Lemma comprehension_keys (matches : list (string * string))
    (out out' : dict string Z) :
  comprehension matches out = Ok out' →
  keys out'
  = keys out ++ filter (fun a => a ∉ keys out) (first_occurrences matches.*1).
Proof.
  revert out. induction matches as [|[a num] matches IH]; intros out; simpl.
  - intros [= <-]. by rewrite app_nil_r.
  - destruct (count_of num) as [n|e]; [|done]. simpl. intros Hc%IH.
    rewrite Hc, keys_dict_set.
    apply (first_occurrences_step (keys out) a matches.*1).
Qed.

Lemma comprehension_raises (matches : list (string * string))
    (out : dict string Z) (e : exn) :
  comprehension matches out = Raise e →
  ∃ atom digits, e = ValueError_int digits ∧ (atom, digits) ∈ matches
    ∧ int_max_str_digits < Z.of_nat (String.length digits).
Proof.
  revert out. induction matches as [|[a num] matches IH]; intros out; simpl;
    [done|].
  destruct (count_of num) as [n|e'] eqn:Hn; simpl.
  - intros (atom & digits & ? & ? & ?)%IH. exists atom, digits.
    split_and!; [done| |done]. by right.
  - intros [= ->]. exists a, num. unfold count_of, py_int in Hn.
    destruct (decide (num = EmptyString)); [done|].
    destruct (Z.ltb_spec int_max_str_digits (Z.of_nat (String.length num)));
      [|done].
    injection Hn as <-. split_and!; [done| |done]. left.
Qed.

(** X1: the parser returns a mapping for every formula of at most 4300
    characters; when it raises, the exception is the [ValueError] of
    [int] for the digits of some symbol of the formula, more than 4300 of
    them. *)
Theorem parseFormula_errors (formula : string) :
  (Z.of_nat (String.length formula) ≤ int_max_str_digits →
   ∃ out, _parseFormula formula = Ok out)
  ∧ (∀ e, _parseFormula formula = Raise e →
       ∃ atom digits, e = ValueError_int digits
         ∧ (atom, digits) ∈ PATTERN_findall formula
         ∧ int_max_str_digits < Z.of_nat (String.length digits)).
Proof.
  split; [apply parseFormula_returns|]. intros e. apply comprehension_raises.
Qed.

Lemma PATTERN_match_symbol (s atom num rest : string) :
  PATTERN_match s = Some (atom, num, rest) → is_symbol atom = true.
Proof.
  destruct s as [|c s]; simpl; [done|].
  destruct (is_upper c) eqn:Hc; [|done].
  destruct s as [|d s'].
  - cbn. intros [= <- <- <-]. simpl. done.
  - destruct (is_lower d) eqn:Hd.
    + destruct (span_digits s'). intros [= <- <- <-]. simpl.
      by rewrite Hc, Hd.
    + destruct (span_digits (String d s')). by intros [= <- <- <-].
Qed.

Lemma PATTERN_findall_symbol (s atom num : string) :
  (atom, num) ∈ PATTERN_findall s → is_symbol atom = true.
Proof.
  remember (String.length s) as n eqn:Hn.
  assert (String.length s ≤ n)%nat as Hle by lia. clear Hn.
  revert s Hle. induction n as [|n IH]; intros s Hle.
  - destruct s; simpl in Hle; [|lia]. by intros ?%elem_of_nil.
  - destruct s as [|c s]; [by intros ?%elem_of_nil|].
    destruct (PATTERN_match (String c s)) as [[[atom' num'] rest]|] eqn:Hm.
    + rewrite (PATTERN_findall_match _ _ _ _ Hm).
      intros [[= -> ->]|Hin]%elem_of_cons;
        [by apply PATTERN_match_symbol in Hm|].
      apply PATTERN_match_spec in Hm as (_ & _ & Hlen). simpl in *.
      apply (IH rest); [lia|done].
    + rewrite (PATTERN_findall_skip _ _ Hm). simpl in Hle.
      apply IH. lia.
Qed.

(** X2: every key of the mapping returned by the parser is an element
    symbol: one upper-case letter, alone or followed by one lower-case
    letter. *)
Theorem parseFormula_keys_symbols (formula : string) (out : dict string Z) :
  _parseFormula formula = Ok out →
  Forall (fun atom => is_symbol atom = true) (keys out).
Proof.
  intros Hp%comprehension_keys. rewrite Hp. simpl.
  apply Forall_forall. intros atom [_ Hin]%list_elem_of_filter.
  apply first_occurrences_elem, list_elem_of_fmap in Hin
    as ([atom' num] & -> & Hin).
  by apply PATTERN_findall_symbol in Hin.
Qed.

Lemma parseFormula_keys_symbols_witness :
  _parseFormula "NaCl" = Ok [("Na"%string, 1); ("Cl"%string, 1)]
  ∧ Forall (fun atom => is_symbol atom = true) ["Na"; "Cl"]%string.
Proof.
  split; [reflexivity|]. apply (parseFormula_keys_symbols "NaCl" _ eq_refl).
Defined.

(** X3: the keys of the mapping returned by the parser are the symbols of
    the formula in the order of their first occurrence. *)
Theorem parseFormula_key_order (formula : string) (out : dict string Z) :
  _parseFormula formula = Ok out →
  keys out = first_occurrences (PATTERN_findall formula).*1.
Proof.
  intros Hp%comprehension_keys. rewrite Hp. simpl.
  apply filter_all. intros a. apply not_elem_of_nil.
Qed.

Lemma parseFormula_key_order_witness :
  _parseFormula "CH3COOH"
  = Ok [("C"%string, 1); ("H"%string, 1); ("O"%string, 1)]
  ∧ ["C"; "H"; "O"]%string = first_occurrences (PATTERN_findall "CH3COOH").*1.
Proof.
  split; [reflexivity|]. apply (parseFormula_key_order "CH3COOH" _ eq_refl).
Defined.

Lemma PATTERN_findall_no_upper (s : string) :
  PATTERN_findall s = [] ↔ has_upper s = false.
Proof.
  induction s as [|c s IH]; [done|]. simpl.
  destruct (PATTERN_match (String c s)) as [[[atom num] rest]|] eqn:Hm.
  - rewrite (PATTERN_findall_match _ _ _ _ Hm).
    simpl in Hm. destruct (is_upper c); [|done]. done.
  - rewrite (PATTERN_findall_skip _ _ Hm), IH.
    simpl in Hm. destruct (is_upper c); [|done].
    by repeat case_match.
Qed.

(** X4: the parser returns the empty mapping, without error, exactly for
    the texts that have no upper-case letter (the empty text among
    them). *)
Theorem parseFormula_empty (formula : string) :
  _parseFormula formula = Ok [] ↔ has_upper formula = false.
Proof.
  rewrite <- PATTERN_findall_no_upper. unfold _parseFormula. split.
  - destruct (PATTERN_findall formula) as [|[a num] matches]; [done|].
    intros Hc%comprehension_keys. simpl in Hc. done.
  - by intros ->.
Qed.

Lemma is_upper_not_lower (c : ascii) : is_upper c = true → is_lower c = false.
Proof. unfold is_upper, is_lower. lia. Qed.

Lemma is_upper_not_digit (c : ascii) : is_upper c = true → is_digit c = false.
Proof. unfold is_upper, is_digit. lia. Qed.

Lemma is_digit_not_lower (c : ascii) : is_digit c = true → is_lower c = false.
Proof. unfold is_digit, is_lower. lia. Qed.

(** The digits of a match end where the next symbol starts. *)
Lemma span_digits_app (num rest : string) :
  all_digits num = true →
  match rest with
  | String c _ => is_digit c = false
  | EmptyString => True
  end →
  span_digits (num ++ rest) = (num, rest).
Proof.
  intros Hd Hrest. induction num as [|c num IH]; simpl in *.
  - destruct rest as [|c rest]; [done|]. simpl. by rewrite Hrest.
  - apply andb_true_iff in Hd as [-> Hd]. by rewrite IH.
Qed.

Lemma render_head (pairs : list (string * string)) :
  Forall (fun m => is_symbol m.1 = true) pairs →
  match render pairs with
  | String c _ => is_upper c = true
  | EmptyString => True
  end.
Proof.
  destruct 1 as [|[atom num] pairs Hs _]; simpl; [done|].
  destruct atom as [|c [|d [|]]]; simpl in *; try done.
  by apply andb_true_iff in Hs as [? _].
Qed.

Lemma PATTERN_match_render (atom num rest : string) :
  is_symbol atom = true → all_digits num = true →
  match rest with
  | String c _ => is_upper c = true
  | EmptyString => True
  end →
  PATTERN_match (atom ++ num ++ rest) = Some (atom, num, rest).
Proof.
  intros Hs Hd Hrest.
  assert (span_digits (num ++ rest) = (num, rest)) as Hspan.
  { apply span_digits_app; [done|]. destruct rest as [|c rest]; [done|].
    by apply is_upper_not_digit. }
  destruct atom as [|c [|d [|]]]; simpl in Hs; try done.
  - change (String c "" ++ num ++ rest)%string
      with (String c (num ++ rest)%string).
    cbn [PATTERN_match]. rewrite Hs.
    destruct (num ++ rest)%string as [|d s'] eqn:Hnr.
    + by rewrite Hspan.
    + assert (is_lower d = false) as ->.
      { destruct num as [|d' num].
        - change (rest = String d s') in Hnr. subst rest.
          by apply is_upper_not_lower.
        - change (String d' (num ++ rest)%string = String d s') in Hnr.
          injection Hnr as -> _. simpl in Hd.
          apply andb_true_iff in Hd as [Hd _]. by apply is_digit_not_lower. }
      by rewrite Hspan.
  - apply andb_true_iff in Hs as [Hc Hl].
    change (String c (String d "") ++ num ++ rest)%string
      with (String c (String d (num ++ rest)%string)).
    cbn [PATTERN_match]. by rewrite Hc, Hl, Hspan.
Qed.

Lemma findall_render (pairs : list (string * string)) :
  Forall (fun m => is_symbol m.1 = true ∧ all_digits m.2 = true) pairs →
  PATTERN_findall (render pairs) = pairs.
Proof.
  induction 1 as [|[atom num] pairs [Hs Hd] Hall IH]; [done|].
  simpl in *. rewrite (PATTERN_findall_match _ atom num (render pairs)).
  - by rewrite IH.
  - apply PATTERN_match_render; [done..|].
    apply render_head. eapply Forall_impl; [exact Hall|]. by intros ? [? _].
Qed.

(** Symbols met for the first time are appended with their counts. *)
Lemma comprehension_distinct (pairs : list (string * string))
    (out : dict string Z) :
  NoDup pairs.*1 →
  (∀ atom, atom ∈ pairs.*1 → atom ∉ keys out) →
  Forall (fun m => Z.of_nat (String.length m.2) ≤ int_max_str_digits) pairs →
  comprehension pairs out
  = Ok (out ++ ((fun m => (m.1, count_value m.2)) <$> pairs)).
Proof.
  intros Hnd Hfresh Hshort. revert out Hnd Hfresh.
  induction Hshort as [|[atom num] pairs Hlen _ IH]; intros out Hnd Hfresh.
  - simpl. by rewrite app_nil_r.
  - simpl in *. apply NoDup_cons in Hnd as [Hatom Hnd].
    rewrite count_of_returns by done. simpl.
    rewrite dict_set_absent by (apply dict_lookup_None, Hfresh; left).
    rewrite IH; [by rewrite <- app_assoc|done|].
    intros a Ha. unfold keys. rewrite fmap_app, elem_of_app.
    intros [Hin|Heq%list_elem_of_singleton].
    + by apply (Hfresh a); [right|].
    + simpl in Heq. by subst a.
Qed.

(** X5: round trip of the parser: a text written as element symbols, each
    followed by a (possibly empty) run of digits, is split by the pattern
    into exactly these symbols and digits; when the symbols are distinct
    and no run has more than 4300 digits, the parser returns the symbols
    with their counts, in the order of the text. *)
Theorem parseFormula_render (pairs : list (string * string)) :
  Forall (fun m => is_symbol m.1 = true ∧ all_digits m.2 = true) pairs →
  PATTERN_findall (render pairs) = pairs
  ∧ (NoDup pairs.*1 →
     Forall (fun m => Z.of_nat (String.length m.2) ≤ int_max_str_digits)
       pairs →
     _parseFormula (render pairs)
     = Ok ((fun m => (m.1, count_value m.2)) <$> pairs)).
Proof.
  intros Hall%findall_render. split; [done|]. intros Hnd Hshort.
  unfold _parseFormula. rewrite Hall.
  rewrite comprehension_distinct; [done|done| |done].
  intros atom _. apply not_elem_of_nil.
Qed.

Lemma parseFormula_render_witness :
  Forall (fun m => is_symbol m.1 = true ∧ all_digits m.2 = true)
    [("C", "6"); ("H", "12"); ("O", "6")]%string
  ∧ PATTERN_findall "C6H12O6" = [("C", "6"); ("H", "12"); ("O", "6")]%string.
Proof.
  assert (Forall (fun m => is_symbol m.1 = true ∧ all_digits m.2 = true)
            [("C", "6"); ("H", "12"); ("O", "6")]%string) as Hall
    by (repeat constructor).
  split; [exact Hall|].
  exact (proj1 (parseFormula_render
                  [("C", "6"); ("H", "12"); ("O", "6")]%string Hall)).
Defined.

(** ** The abundance table reader *)

Section TableFacts.
Context {F : Type}.
Context (int_of_str : string → result Z) (float_of_str : string → result F).
Implicit Types (out table : abundance_table F) (r : string * Z * Z * F).
Implicit Types (rows : list table_row) (converted : list (string * Z * Z * F)).

Lemma store_row_Ok out r : store_row out r = Ok (stored out r).
Proof.
  destruct r as [[[element isotope] shift] abund]. unfold store_row, stored.
  rewrite dict_lookup_set_eq. by rewrite dict_set_set.
Qed.

Lemma read_row_element (row : table_row) r :
  read_row int_of_str float_of_str row = Ok r → r.1.1.1 = row_element row.
Proof.
  unfold read_row.
  destruct (int_of_str (row_isotope row)); [|done].
  destruct (int_of_str (row_mass_shift row)); [|done].
  destruct (float_of_str (row_abundance row)); [|done].
  by intros [= <-].
Qed.

(** The loop returns when every row converts, and then the table is the
    one obtained by storing the converted rows in order. *)
Lemma read_rows_Ok rows out table :
  read_rows int_of_str float_of_str rows out = Ok table
  ↔ ∃ converted,
      Forall2 (fun row r => read_row int_of_str float_of_str row = Ok r)
        rows converted
      ∧ table = fold_left stored converted out.
Proof.
  revert out. induction rows as [|row rows IH]; intros out; simpl.
  - split.
    + intros [= <-]. exists []. by split; [constructor|].
    + intros (converted & ->%Forall2_nil_inv_l & ->). done.
  - destruct (read_row int_of_str float_of_str row) as [r|e] eqn:Hr; simpl.
    + rewrite store_row_Ok. simpl. rewrite IH. split.
      * intros (converted & Hall & ->). exists (r :: converted).
        split; [by constructor|done].
      * intros (converted & Hall & ->).
        apply Forall2_cons_inv_l in Hall as (r' & converted' & Hr' & Hall & ->).
        rewrite Hr in Hr'. injection Hr' as <-. by exists converted'.
    + split; [done|]. intros (converted & Hall & _).
      apply Forall2_cons_inv_l in Hall as (r' & ? & Hr' & _).
      by rewrite Hr in Hr'.
Qed.

(** The loop stops at the first row that does not convert. *)
Lemma read_rows_Raise rows (row : table_row) (rows' : list table_row)
    converted out (e : exn) :
  Forall2 (fun row r => read_row int_of_str float_of_str row = Ok r)
    rows converted →
  read_row int_of_str float_of_str row = Raise e →
  read_rows int_of_str float_of_str (rows ++ row :: rows') out = Raise e.
Proof.
  intros Hall He. revert out.
  induction Hall as [|row0 r rows converted Hr _ IH]; intros out; simpl.
  - by rewrite He.
  - rewrite Hr. simpl. rewrite store_row_Ok. simpl. apply IH.
Qed.

Lemma stored_lookup out r (element : string) (isotope : Z) :
  table_lookup (stored out r) element isotope
  = if decide (element = r.1.1.1 ∧ isotope = r.1.1.2)
    then Some (r.1.2, r.2) else table_lookup out element isotope.
Proof.
  destruct r as [[[element' isotope'] shift] abund]. simpl.
  unfold table_lookup, stored.
  destruct (decide (element = element')) as [->|Hne].
  - rewrite dict_lookup_set_eq. simpl.
    destruct (decide (isotope = isotope')) as [->|Hni].
    + rewrite decide_True by done. apply dict_lookup_set_eq.
    + rewrite decide_False by tauto.
      rewrite dict_lookup_set_ne by done. unfold dict_get.
      by destruct (dict_lookup out element').
  - rewrite decide_False by tauto. by rewrite dict_lookup_set_ne.
Qed.

Lemma fold_stored_lookup converted out (element : string) (isotope : Z) :
  table_lookup (fold_left stored converted out) element isotope
  = match last_row element isotope converted with
    | Some v => Some v
    | None => table_lookup out element isotope
    end.
Proof.
  revert out. induction converted as [|r converted IH]; intros out; [done|].
  cbn [fold_left]. rewrite IH, stored_lookup.
  destruct r as [[[element' isotope'] shift] abund]. cbn [last_row fst snd].
  destruct (last_row element isotope converted); [done|].
  by case_decide.
Qed.

(** X6: in the table returned by the reader, [table[element][isotope]] is
    the (mass shift, abundance) of the last row of the file that has this
    element and this isotope; an earlier row with the same element and
    isotope is overwritten, and a pair without row is absent. *)
Theorem parseAbundanceTable_lookup rows table :
  _parseAbundanceTable int_of_str float_of_str rows = Ok table →
  ∃ converted,
    Forall2 (fun row r => read_row int_of_str float_of_str row = Ok r)
      rows converted
    ∧ ∀ element isotope,
        table_lookup table element isotope
        = last_row element isotope converted.
Proof.
  intros (converted & Hall & ->)%read_rows_Ok. exists converted.
  split; [done|]. intros element isotope. rewrite fold_stored_lookup.
  by destruct (last_row element isotope converted).
Qed.

Lemma Forall_dict_set {K V} `{EqDecision K} (P : K * V → Prop)
    (d : dict K V) (k : K) (v : V) :
  Forall P d → P (k, v) → Forall P (dict_set d k v).
Proof.
  intros Hd Hk. induction Hd as [|[k' v'] d Hkv Hd IH]; simpl.
  - by constructor.
  - destruct (decide (k = k')) as [<-|]; by constructor.
Qed.

Lemma dict_set_nonempty {K V} `{EqDecision K} (d : dict K V) (k : K) (v : V) :
  dict_set d k v ≠ [].
Proof. destruct d as [|[k' v'] d]; simpl; [done|]. by case_decide. Qed.

Lemma stored_wf out r :
  dict_wf out ∧ Forall (fun entry => dict_wf entry.2 ∧ entry.2 ≠ []) out →
  dict_wf (stored out r)
  ∧ Forall (fun entry => dict_wf entry.2 ∧ entry.2 ≠ []) (stored out r).
Proof.
  destruct r as [[[element isotope] shift] abund]. intros [Hwf Hall].
  unfold stored. split; [by apply dict_wf_set|].
  apply Forall_dict_set; [done|]. simpl.
  split; [|apply dict_set_nonempty]. apply dict_wf_set.
  unfold dict_get. destruct (dict_lookup out element) as [isotopes|] eqn:Hl.
  - apply dict_lookup_Some_elem in Hl.
    by destruct (proj1 (Forall_forall _ _) Hall _ Hl).
  - constructor.
Qed.

Lemma fold_stored_wf converted out :
  dict_wf out ∧ Forall (fun entry => dict_wf entry.2 ∧ entry.2 ≠ []) out →
  dict_wf (fold_left stored converted out)
  ∧ Forall (fun entry => dict_wf entry.2 ∧ entry.2 ≠ [])
      (fold_left stored converted out).
Proof.
  revert out. induction converted as [|r converted IH]; intros out Hout;
    simpl; [done|].
  by apply IH, stored_wf.
Qed.

Lemma stored_keys out r :
  keys (stored out r)
  = if decide (r.1.1.1 ∈ keys out) then keys out else keys out ++ [r.1.1.1].
Proof.
  destruct r as [[[element isotope] shift] abund]. apply keys_dict_set.
Qed.

Lemma fold_stored_keys converted out :
  keys (fold_left stored converted out)
  = keys out
    ++ filter (fun a => a ∉ keys out)
         (first_occurrences ((fun r => r.1.1.1) <$> converted)).
Proof.
  revert out. induction converted as [|r converted IH]; intros out.
  - simpl. by rewrite app_nil_r.
  - cbn [fold_left]. rewrite IH, stored_keys.
    apply (first_occurrences_step (keys out) r.1.1.1).
Qed.

Lemma converted_elements rows converted :
  Forall2 (fun row r => read_row int_of_str float_of_str row = Ok r)
    rows converted →
  (fun r => r.1.1.1) <$> converted = row_element <$> rows.
Proof.
  induction 1 as [|row r rows converted Hr _ IH]; [done|].
  rewrite !fmap_cons, IH. f_equal. by apply read_row_element.
Qed.

Lemma parseAbundanceTable_keys rows table :
  _parseAbundanceTable int_of_str float_of_str rows = Ok table →
  keys table = first_occurrences (row_element <$> rows).
Proof.
  intros (converted & Hall & ->)%read_rows_Ok.
  rewrite fold_stored_keys, (converted_elements _ _ Hall). simpl.
  apply filter_all. intros a. apply not_elem_of_nil.
Qed.

Lemma parseAbundanceTable_entries rows table :
  _parseAbundanceTable int_of_str float_of_str rows = Ok table →
  dict_wf table ∧ Forall (fun entry => dict_wf entry.2 ∧ entry.2 ≠ []) table.
Proof.
  intros (converted & Hall & ->)%read_rows_Ok.
  apply fold_stored_wf. split; constructor.
Qed.

(** X7: the table returned by the reader has its elements in the order of
    their first row, no element twice, and for every element a non-empty
    dictionary of isotopes without repeated isotope. *)
Theorem parseAbundanceTable_wf rows table :
  _parseAbundanceTable int_of_str float_of_str rows = Ok table →
  keys table = first_occurrences (row_element <$> rows)
  ∧ dict_wf table
  ∧ Forall (fun entry => dict_wf entry.2 ∧ entry.2 ≠ []) table.
Proof.
  intros Hp. split; [by apply parseAbundanceTable_keys|].
  by apply (parseAbundanceTable_entries rows).
Qed.

(** X8: the reader returns a table exactly when every row converts; when a
    row does not convert while the rows before it do, the reader raises
    the exception of that row and no table is returned; in a row the
    isotope is converted first, then the mass shift, then the
    abundance. *)
Theorem parseAbundanceTable_errors rows :
  ((∃ table, _parseAbundanceTable int_of_str float_of_str rows = Ok table)
   ↔ Forall (fun row => ∃ r, read_row int_of_str float_of_str row = Ok r) rows)
  ∧ (∀ before row after e,
       rows = before ++ row :: after →
       Forall (fun row => ∃ r, read_row int_of_str float_of_str row = Ok r)
         before →
       read_row int_of_str float_of_str row = Raise e →
       _parseAbundanceTable int_of_str float_of_str rows = Raise e)
  ∧ (∀ row e,
       read_row int_of_str float_of_str row = Raise e →
       int_of_str (row_isotope row) = Raise e
       ∨ ((∃ isotope, int_of_str (row_isotope row) = Ok isotope)
          ∧ (int_of_str (row_mass_shift row) = Raise e
             ∨ ((∃ shift, int_of_str (row_mass_shift row) = Ok shift)
                ∧ float_of_str (row_abundance row) = Raise e)))).
Proof.
  assert (∀ l, Forall (fun row => ∃ r, read_row int_of_str float_of_str row
                                        = Ok r) l
             → ∃ converted,
                 Forall2 (fun row r => read_row int_of_str float_of_str row
                                       = Ok r) l converted) as Hconv.
  { induction 1 as [|row l [r Hr] _ [converted IH]]; [by exists []|].
    exists (r :: converted). by constructor. }
  split_and!.
  - split.
    + intros [table (converted & Hall & _)%read_rows_Ok].
      induction Hall; constructor; eauto.
    + intros [converted Hall]%Hconv. eexists. apply read_rows_Ok. eauto.
  - intros before row after e -> [converted Hall]%Hconv He.
    by apply (read_rows_Raise _ _ _ converted).
  - intros row e He. unfold read_row in He.
    destruct (int_of_str (row_isotope row)) as [isotope|e1]; simpl in He;
      [|injection He as ->; by left].
    right. split; [by eexists|].
    destruct (int_of_str (row_mass_shift row)) as [shift|e2]; simpl in He;
      [|injection He as ->; by left].
    right. split; [by eexists|].
    destruct (float_of_str (row_abundance row)); simpl in He; [done|].
    by injection He as ->.
Qed.

(** X9: a table returned by the reader passes the congruency check with a
    formula exactly when every element of the formula is the element of
    some row of the file. *)
Theorem parseAbundanceTable_congruent rows table (formula : dict string Z) :
  _parseAbundanceTable int_of_str float_of_str rows = Ok table →
  (_checkCongruency formula table = Ok ()
   ↔ ∀ atom, atom ∈ keys formula → atom ∈ row_element <$> rows).
Proof.
  intros Hkeys%parseAbundanceTable_keys. unfold _checkCongruency.
  destruct (decide (_ ≠ ∅)) as [Hne|Heq%dec_stable].
  - split; [done|]. intros Hall.
    apply set_choose_L in Hne as [atom Hin].
    apply elem_of_difference in Hin as [Hin Hout].
    rewrite elem_of_list_to_set in Hin, Hout.
    destruct Hout. rewrite Hkeys. by apply first_occurrences_elem, Hall.
  - split; [|done]. intros _ atom Hin.
    apply first_occurrences_elem. rewrite <- Hkeys.
    destruct (decide (atom ∈ keys table)) as [|Hout]; [done|].
    assert (atom ∈ (∅ : gset string)) as []%not_elem_of_empty.
    rewrite <- Heq. by rewrite elem_of_difference, !elem_of_list_to_set.
Qed.

End TableFacts.

(** The rows of the worked example, the two rows of C apart. *)
Example parseAbundanceTable_CH :
  _parseAbundanceTable int_of_numeral float_of_numeral rows_CH = Ok table_CH.
Proof. vm_compute. reflexivity. Qed.

Lemma parseAbundanceTable_lookup_witness :
  _parseAbundanceTable int_of_numeral float_of_numeral rows_CH = Ok table_CH
  ∧ ∃ converted,
      Forall2 (fun row r => read_row int_of_numeral float_of_numeral row = Ok r)
        rows_CH converted
      ∧ ∀ element isotope,
          table_lookup table_CH element isotope
          = last_row element isotope converted.
Proof.
  assert (_parseAbundanceTable int_of_numeral float_of_numeral rows_CH
          = Ok table_CH) as Hp by (vm_compute; reflexivity).
  split; [exact Hp|].
  exact (parseAbundanceTable_lookup int_of_numeral float_of_numeral
           rows_CH table_CH Hp).
Defined.

Lemma parseAbundanceTable_wf_witness :
  _parseAbundanceTable int_of_numeral float_of_numeral rows_CH = Ok table_CH
  ∧ keys table_CH = first_occurrences (row_element <$> rows_CH)
  ∧ dict_wf table_CH
  ∧ Forall (fun entry => dict_wf entry.2 ∧ entry.2 ≠ []) table_CH.
Proof.
  assert (_parseAbundanceTable int_of_numeral float_of_numeral rows_CH
          = Ok table_CH) as Hp by (vm_compute; reflexivity).
  split; [exact Hp|].
  exact (parseAbundanceTable_wf int_of_numeral float_of_numeral
           rows_CH table_CH Hp).
Defined.

Lemma parseAbundanceTable_congruent_witness :
  _parseAbundanceTable int_of_numeral float_of_numeral rows_CH = Ok table_CH
  ∧ (_checkCongruency formula_CH4 table_CH = Ok ()
     ↔ ∀ atom, atom ∈ keys formula_CH4 → atom ∈ row_element <$> rows_CH).
Proof.
  assert (_parseAbundanceTable int_of_numeral float_of_numeral rows_CH
          = Ok table_CH) as Hp by (vm_compute; reflexivity).
  split; [exact Hp|].
  exact (parseAbundanceTable_congruent int_of_numeral float_of_numeral
           rows_CH table_CH formula_CH4 Hp).
Defined.

(** ** Further properties of the engine *)

Section EngineFacts.
Context {F : Type} `{Arith F}.
Implicit Types (formula : dict string Z) (abdTable : abundance_table F).
Implicit Types (out d : distribution F).

Lemma expand_app abdTable (before rest : list (string * Z))
    (expanded_formula : list (list (choice F))) :
  congruent before abdTable →
  expand abdTable (before ++ rest) expanded_formula
  = expand abdTable rest (expanded_formula ++ slots before abdTable).
Proof.
  revert expanded_formula.
  induction before as [|[atom num] before IH]; intros acc Hc.
  - simpl. by rewrite app_nil_r.
  - assert (congruent before abdTable) as Hc'
      by (intros a Ha; apply Hc; by right).
    destruct (dict_lookup abdTable atom) as [isotopes|] eqn:Hl.
    + simpl. rewrite Hl, IH by done.
      by rewrite <- app_assoc, (isotopes_of_lookup _ _ _ Hl).
    + apply dict_lookup_None in Hl. destruct Hl. apply Hc. left.
Qed.

(** X10: when the formula has an element without entry in the table, the
    expander raises [KeyError] for the first such element of the formula,
    whatever its count (a count of 0 included), and
    [_getMassShiftAbundances] raises it without any isotopomer being
    evaluated. *)
Theorem genArgs_KeyError formula abdTable (before after : list (string * Z))
    (atom : string) (num cpus : Z) :
  formula = before ++ (atom, num) :: after →
  congruent before abdTable →
  atom ∉ keys abdTable →
  1 ≤ cpus →
  genArgs formula abdTable = Raise (KeyError_atom atom)
  ∧ _getMassShiftAbundances formula abdTable cpus
    = {| evaluated := []; outcome := Raise (KeyError_atom atom) |}.
Proof.
  intros -> Hc Hout%dict_lookup_None Hcpus.
  assert (genArgs (before ++ (atom, num) :: after) abdTable
          = Raise (KeyError_atom atom)) as Hgen.
  { unfold genArgs. rewrite expand_app by done. simpl. by rewrite Hout. }
  split; [done|].
  rewrite getMassShiftAbundances_pool by done. by rewrite Hgen.
Qed.

Lemma accumulate_keys out (r : isotopomer_result F) :
  keys (dict_set out (result_key r)
          (fadd (dict_get out (result_key r) fzero) (result_abundance r)))
  = if decide (result_key r ∈ keys out) then keys out
    else keys out ++ [result_key r].
Proof. apply keys_dict_set. Qed.

Lemma combine_keys (results : list (isotopomer_result F)) out d :
  combine results out = Ok d →
  keys d
  = keys out
    ++ filter (fun k => k ∉ keys out)
         (first_occurrences (result_key <$> results)).
Proof.
  revert out. induction results as [|r results IH]; intros out; simpl.
  - intros [= <-]. by rewrite app_nil_r.
  - rewrite accumulate_Ok. simpl. intros Hc%IH.
    rewrite Hc, accumulate_keys.
    apply (first_occurrences_step (keys out) (result_key r)).
Qed.

(** X11: the keys of the distribution returned are the (total mass, total
    shift) pairs of the enumerated isotopomers in the order in which they
    are first met in the enumeration. *)
Theorem getMassShiftAbundances_key_order formula abdTable (cpus : Z) :
  congruent formula abdTable → 1 ≤ cpus →
  ∃ isos d,
    genArgs formula abdTable = Ok isos
    ∧ outcome (_getMassShiftAbundances formula abdTable cpus) = Ok d
    ∧ keys d
      = first_occurrences (result_key <$> (_getOneIsotopomer <$> isos)).
Proof.
  intros Hc Hcpus. rewrite getMassShiftAbundances_pool by done.
  rewrite genArgs_congruent by done. simpl.
  destruct (combine_spec (_getOneIsotopomer <$> product (slots formula abdTable))
              []) as (d & Hd & _).
  exists (product (slots formula abdTable)), d. split_and!; [done..|].
  rewrite (combine_keys _ _ _ Hd). simpl.
  apply filter_all. intros k. apply not_elem_of_nil.
Qed.

Lemma first_occurrences_nil {A} `{EqDecision A} (l : list A) :
  first_occurrences l = [] ↔ l = [].
Proof. by destruct l. Qed.

Lemma space_size_zero formula abdTable :
  space_size formula abdTable = 0%nat
  ↔ ∃ atom num, (atom, num) ∈ formula ∧ 0 < num
      ∧ isotopes_of abdTable atom = [].
Proof.
  induction formula as [|[atom num] formula IH]; simpl.
  - split; [done|]. by intros (? & ? & ?%elem_of_nil & _).
  - fold (space_size formula abdTable).
    rewrite Nat.eq_mul_0, Nat.pow_eq_0_iff, IH, length_zero_iff_nil. split.
    + intros [[Hnum Hiso]|(a & n & Hin & Hn & Ha)].
      * exists atom, num. split_and!; [left|lia|done].
      * exists a, n. split_and!; [by right|done..].
    + intros (a & n & [[= -> ->]|Hin]%elem_of_cons & Hn & Ha).
      * left. split; [lia|done].
      * right. by exists a, n.
Qed.

Lemma combine_empty (results : list (isotopomer_result F)) d :
  combine results [] = Ok d → (d = [] ↔ results = []).
Proof.
  intros Hd%combine_keys. simpl in Hd.
  rewrite filter_all in Hd by (intros k; apply not_elem_of_nil). split.
  - intros ->. simpl in Hd. symmetry in Hd.
    by apply first_occurrences_nil, fmap_nil_inv in Hd.
  - intros ->. by destruct d.
Qed.

(** X12: the distribution returned is empty exactly when no isotopomer is
    enumerated, which is when some element of the formula with a positive
    count has no isotope in the table. *)
Theorem getMassShiftAbundances_empty formula abdTable (cpus : Z) :
  congruent formula abdTable → 1 ≤ cpus →
  ∃ d,
    outcome (_getMassShiftAbundances formula abdTable cpus) = Ok d
    ∧ (d = [] ↔ evaluated (_getMassShiftAbundances formula abdTable cpus) = [])
    ∧ (d = [] ↔ ∃ atom num, (atom, num) ∈ formula ∧ 0 < num
                  ∧ isotopes_of abdTable atom = []).
Proof.
  intros Hc Hcpus. rewrite getMassShiftAbundances_pool by done.
  rewrite genArgs_congruent by done. simpl.
  destruct (combine_spec (_getOneIsotopomer <$> product (slots formula abdTable))
              []) as (d & Hd & _).
  exists d. split; [done|].
  assert (d = [] ↔ product (slots formula abdTable) = []) as Hempty.
  { rewrite (combine_empty _ _ Hd). split; [apply fmap_nil_inv|by intros ->]. }
  split; [done|].
  rewrite Hempty, <- space_size_zero, <- pool_sizes_slots, <- length_product.
  symmetry. apply length_zero_iff_nil.
Qed.

Lemma slots_cons formula abdTable (atom : string) (num : Z) :
  slots ((atom, num) :: formula) abdTable
  = replicate (Z.to_nat num) (choices (isotopes_of abdTable atom))
    ++ slots formula abdTable.
Proof. reflexivity. Qed.

Lemma length_slots formula abdTable :
  length (slots formula abdTable) = atom_count formula.
Proof.
  induction formula as [|[atom num] formula IH]; [done|].
  rewrite slots_cons, length_app, length_replicate. simpl. by rewrite IH.
Qed.

(** X13: every isotopomer the expander yields has one choice for each atom
    of the formula: its length is the sum of the counts. *)
Theorem genArgs_isotopomer_length formula abdTable :
  congruent formula abdTable →
  ∃ isos, genArgs formula abdTable = Ok isos
    ∧ Forall (fun atoms => length atoms = atom_count formula) isos.
Proof.
  intros Hc. rewrite genArgs_congruent by done. eexists. split; [done|].
  apply Forall_forall. intros atoms Hin%elem_of_product.
  by rewrite (Forall2_length _ _ _ Hin), length_slots.
Qed.

Lemma slots_positive formula abdTable :
  slots (filter (fun entry => 0 < entry.2) formula) abdTable
  = slots formula abdTable.
Proof.
  induction formula as [|[atom num] formula IH]; [done|].
  rewrite filter_cons, slots_cons. simpl.
  destruct (decide (0 < num)) as [Hpos|Hneg].
  - by rewrite slots_cons, IH.
  - replace (Z.to_nat num) with 0%nat by lia. by rewrite IH.
Qed.

(** X14: the elements of the formula whose count is not positive have no
    part in the result: with a table that has an entry for every element
    of the formula, [_getMassShiftAbundances] evaluates the same
    isotopomers and returns the same distribution as for the formula
    without these elements. *)
Theorem getMassShiftAbundances_positive formula abdTable (cpus : Z) :
  congruent formula abdTable →
  _getMassShiftAbundances (filter (fun entry => 0 < entry.2) formula)
    abdTable cpus
  = _getMassShiftAbundances formula abdTable cpus.
Proof.
  intros Hc.
  assert (congruent (filter (fun entry => 0 < entry.2) formula) abdTable)
    as Hc'.
  { intros atom ([a n] & -> & [_ Hin]%list_elem_of_filter)%list_elem_of_fmap.
    apply Hc. apply list_elem_of_fmap. by exists (a, n). }
  unfold _getMassShiftAbundances.
  by rewrite !genArgs_congruent, slots_positive by done.
Qed.

End EngineFacts.

(** X15: with a table returned by the reader and a formula whose elements
    all have rows, at least one isotopomer is evaluated and the
    distribution returned is not empty: the reader gives every element at
    least one isotope. *)
Theorem parsed_table_distribution {F : Type} `{Arith F}
    (int_of_str : string → result Z) (float_of_str : string → result F)
    (rows : list table_row) (table : abundance_table F)
    (formula : dict string Z) (cpus : Z) :
  _parseAbundanceTable int_of_str float_of_str rows = Ok table →
  congruent formula table → 1 ≤ cpus →
  ∃ d, outcome (_getMassShiftAbundances formula table cpus) = Ok d
    ∧ d ≠ []
    ∧ evaluated (_getMassShiftAbundances formula table cpus) ≠ [].
Proof.
  intros [_ Hentries]%parseAbundanceTable_entries Hc Hcpus.
  rewrite getMassShiftAbundances_pool by done.
  rewrite genArgs_congruent by done. simpl.
  destruct (combine_spec (_getOneIsotopomer <$> product (slots formula table))
              []) as (d & Hd & _).
  assert (product (slots formula table) ≠ []) as Hne.
  { intros Hp%length_zero_iff_nil.
    rewrite length_product, pool_sizes_slots in Hp.
    apply space_size_zero in Hp as (atom & num & Hin & _ & Hiso).
    assert (atom ∈ keys table) as Hk.
    { apply Hc, list_elem_of_fmap. by exists (atom, num). }
    destruct (dict_lookup table atom) as [isotopes|] eqn:Hl;
      [|by apply dict_lookup_None in Hl].
    rewrite (isotopes_of_lookup _ _ _ Hl) in Hiso. subst isotopes.
    apply dict_lookup_Some_elem in Hl.
    by destruct (proj1 (Forall_forall _ _) Hentries _ Hl) as [_ ?]. }
  exists d. split_and!; [done| |done].
  rewrite (combine_empty _ _ Hd). by intros ?%fmap_nil_inv.
Qed.

(** *** Order *)

Lemma sum_Z_Permutation (l l' : list Z) : l ≡ₚ l' → sum_Z l = sum_Z l'.
Proof.
  unfold sum_Z. induction 1; simpl; [done|lia..].
Qed.

Section OrderFacts.
Context {F : Type} `{ExactArith F}.

Lemma fsum_Permutation (l l' : list F) : l ≡ₚ l' → fsum l = fsum l'.
Proof.
  induction 1 as [|x l l' _ IH|x y l|l1 l2 l3 _ IH1 _ IH2].
  - done.
  - by rewrite !fsum_cons, IH.
  - by rewrite !fsum_cons, !fadd_assoc, (fadd_comm y x).
  - by rewrite IH1.
Qed.

Lemma fprod_Permutation (l l' : list F) : l ≡ₚ l' → fprod l = fprod l'.
Proof.
  induction 1 as [|x l l' _ IH|x y l|l1 l2 l3 _ IH1 _ IH2].
  - done.
  - by rewrite !fprod_cons, IH.
  - by rewrite !fprod_cons, !fmul_assoc, (fmul_comm y x).
  - by rewrite IH1.
Qed.

Lemma dict_elem_lookup {K V} `{EqDecision K} (d : dict K V) (k : K) (v : V) :
  dict_wf d → ((k, v) ∈ d ↔ dict_lookup d k = Some v).
Proof.
  intros Hwf. split; [|apply dict_lookup_Some_elem].
  induction d as [|[k0 v0] d IH]; [by intros ?%elem_of_nil|].
  apply NoDup_cons in Hwf as [Hk0 Hwf]. simpl.
  intros [[= -> ->]|Hin]%elem_of_cons.
  - by rewrite decide_True.
  - rewrite decide_False; [by apply IH|].
    intros ->. apply Hk0, list_elem_of_fmap. by exists (k0, v).
Qed.

Lemma dict_Permutation {K V} `{EqDecision K} (d d' : dict K V) :
  dict_wf d → dict_wf d' →
  (∀ k, dict_lookup d k = dict_lookup d' k) → d ≡ₚ d'.
Proof.
  intros Hwf Hwf' Hlook.
  apply NoDup_Permutation; [by eapply NoDup_fmap_1..|].
  intros [k v]. by rewrite !dict_elem_lookup, Hlook.
Qed.

End OrderFacts.

(** X16: the total mass and the total shift of an isotopomer do not depend
    on the order of its atoms; in arithmetic without rounding its
    abundance does not either. *)
Theorem getOneIsotopomer_permutation {F : Type} `{Arith F}
    (atoms atoms' : isotopomer F) :
  atoms ≡ₚ atoms' →
  result_key (_getOneIsotopomer atoms) = result_key (_getOneIsotopomer atoms')
  ∧ (ExactArith F → _getOneIsotopomer atoms = _getOneIsotopomer atoms').
Proof.
  intros Hp. unfold _getOneIsotopomer. rewrite !getOneIsotopomer_loop.
  assert (sum_Z (choice_mass <$> atoms) = sum_Z (choice_mass <$> atoms'))
    as -> by (by apply sum_Z_Permutation, fmap_Permutation).
  assert (sum_Z (choice_shift <$> atoms) = sum_Z (choice_shift <$> atoms'))
    as -> by (by apply sum_Z_Permutation, fmap_Permutation).
  split; [done|]. intros Hexact. f_equal.
  by apply fprod_Permutation, fmap_Permutation.
Qed.

(** X17: in arithmetic without rounding the second loop does not depend on
    the order of the results: from the same results in another order it
    builds a distribution with the same entries, possibly in another
    order. *)
Theorem combine_permutation {F : Type} `{ExactArith F}
    (results results' : list (isotopomer_result F)) :
  results ≡ₚ results' →
  ∃ d d', combine results [] = Ok d ∧ combine results' [] = Ok d'
    ∧ d ≡ₚ d'.
Proof.
  intros Hp.
  destruct (combine_spec results []) as (d & Hd & Hwf & Hlook).
  destruct (combine_spec results' []) as (d' & Hd' & Hwf' & Hlook').
  exists d, d'. split_and!; [done..|].
  apply dict_Permutation; [apply Hwf; constructor|apply Hwf'; constructor|].
  intros key. rewrite Hlook, Hlook'.
  assert (contributions key results ≡ₚ contributions key results') as Hc.
  { unfold contributions. by rewrite Hp. }
  destruct (contributions key results) as [|x l] eqn:Hl.
  - apply Permutation_nil_l in Hc. by rewrite <- Hc.
  - destruct (contributions key results') as [|x' l'] eqn:Hl'.
    + by apply Permutation_nil_r in Hc.
    + f_equal. change (fsum (x :: l) = fsum (x' :: l')).
      by apply fsum_Permutation.
Qed.

(** *** Elements with a single isotope *)

Lemma product_singletons {A} (pools : list (list A)) :
  Forall (fun pool => length pool = 1%nat) pools →
  product pools = [mjoin pools].
Proof.
  induction 1 as [|pool pools Hlen _ IH]; [done|].
  destruct pool as [|x [|]]; simpl in Hlen; try done.
  simpl. by rewrite IH.
Qed.

(** X18: when every element of the formula has exactly one isotope in the
    table, exactly one isotopomer is evaluated, the one that takes this
    isotope for every atom, and the distribution returned has exactly one
    key, its total mass and total shift. *)
Theorem getMassShiftAbundances_single_isotope {F : Type} `{Arith F}
    (formula : dict string Z) (abdTable : abundance_table F) (cpus : Z) :
  congruent formula abdTable →
  (∀ atom, atom ∈ keys formula →
     length (isotopes_of abdTable atom) = 1%nat) →
  1 ≤ cpus →
  let atoms := mjoin (slots formula abdTable) in
  _getMassShiftAbundances formula abdTable cpus
  = {| evaluated := [atoms];
       outcome := Ok [(result_key (_getOneIsotopomer atoms),
                       fadd fzero (result_abundance (_getOneIsotopomer atoms)))]
    |}.
Proof.
  intros Hc Hone Hcpus atoms.
  rewrite getMassShiftAbundances_pool by done.
  rewrite genArgs_congruent by done.
  rewrite product_singletons.
  - simpl. rewrite accumulate_Ok. done.
  - apply Forall_forall.
    intros pool ([atom num] & Hpool & Hin)%list_elem_of_bind.
    apply elem_of_replicate_inv in Hpool as ->.
    unfold choices. rewrite length_fmap. apply Hone.
    apply list_elem_of_fmap. by exists (atom, num).
Qed.

(** *** The order of the elements in the formula *)

Lemma bind_pointwise_Permutation {A B} (f g : A → list B) (l : list A) :
  (∀ x, f x ≡ₚ g x) → l ≫= f ≡ₚ l ≫= g.
Proof.
  intros Hfg. induction l as [|x l IH]; csimpl; [done|].
  by rewrite Hfg, IH.
Qed.

Lemma bind_app_Permutation {A B} (f g : A → list B) (l : list A) :
  l ≫= (fun x => f x ++ g x) ≡ₚ (l ≫= f) ++ (l ≫= g).
Proof.
  induction l as [|x l IH]; csimpl; [done|]. rewrite IH.
  rewrite <- !(assoc_L (++)). f_equiv. rewrite !(assoc_L (++)). f_equiv.
  apply Permutation_app_comm.
Qed.

Lemma bind_const_nil {A B} (l : list A) :
  l ≫= (fun _ => @nil B) = [].
Proof. by induction l. Qed.

(** Two nested loops may be exchanged, up to the order of what they
    produce. *)
Lemma bind_swap_Permutation {A B C} (g : A → B → list C)
    (x : list A) (y : list B) :
  y ≫= (fun b => x ≫= fun a => g a b) ≡ₚ x ≫= (fun a => y ≫= fun b => g a b).
Proof.
  induction y as [|b y IH]; csimpl.
  - by rewrite bind_const_nil.
  - rewrite IH. symmetry.
    apply (bind_app_Permutation (fun a => g a b) (fun a => y ≫= g a)).
Qed.

Lemma fmap_bind_list {A B C} (f : B → C) (g : A → list B) (l : list A) :
  f <$> (l ≫= g) = l ≫= (fun a => f <$> g a).
Proof.
  induction l as [|a l IH]; csimpl; [done|]. by rewrite fmap_app, IH.
Qed.

Section FormulaOrder.
Context {F : Type} `{ExactArith F}.
Implicit Types (formula : dict string Z) (abdTable : abundance_table F).

Lemma getOneIsotopomer_cons (c : choice F) (atoms : isotopomer F) :
  _getOneIsotopomer (c :: atoms) = add_atom c (_getOneIsotopomer atoms).
Proof.
  unfold _getOneIsotopomer, add_atom. rewrite !getOneIsotopomer_loop.
  rewrite !fmap_cons. simpl. f_equal. apply fprod_cons.
Qed.

Lemma add_atom_comm (a b : choice F) (r : isotopomer_result F) :
  add_atom a (add_atom b r) = add_atom b (add_atom a r).
Proof.
  unfold add_atom. simpl. f_equal; [f_equal; lia|].
  by rewrite !fmul_assoc, (fmul_comm (choice_abundance a)).
Qed.

Lemma results_product_cons (pool : list (choice F))
    (pools : list (list (choice F))) :
  _getOneIsotopomer <$> product (pool :: pools)
  = pool ≫= fun a => add_atom a <$> (_getOneIsotopomer <$> product pools).
Proof.
  simpl. rewrite fmap_bind_list. apply list_bind_ext; [|done]. intros a.
  rewrite <- !list_fmap_compose. apply list_fmap_ext. intros _ atoms _.
  apply getOneIsotopomer_cons.
Qed.

(** The results of a product do not depend on the order of the pools, up
    to their own order. *)
Lemma results_product_Permutation (pools pools' : list (list (choice F))) :
  pools ≡ₚ pools' →
  _getOneIsotopomer <$> product pools ≡ₚ _getOneIsotopomer <$> product pools'.
Proof.
  induction 1 as [|x l l' _ IH|x y l|l1 l2 l3 _ IH1 _ IH2].
  - done.
  - rewrite !results_product_cons. apply bind_pointwise_Permutation.
    intros a. by rewrite IH.
  - rewrite !results_product_cons.
    erewrite (list_bind_ext _ _ y y); [|intros b; apply fmap_bind_list|done].
    erewrite (list_bind_ext _ _ x x); [|intros a; apply fmap_bind_list|done].
    rewrite (bind_swap_Permutation _ x y).
    apply bind_pointwise_Permutation. intros a.
    apply bind_pointwise_Permutation. intros b.
    rewrite <- !list_fmap_compose.
    erewrite list_fmap_ext; [done|]. intros _ r _. apply add_atom_comm.
  - by rewrite IH1.
Qed.

(** X21: in arithmetic without rounding the distribution does not depend
    on the order of the elements in the formula: for two formulas with the
    same elements and counts in different orders the distributions
    returned have the same entries, possibly in another order. *)
Theorem getMassShiftAbundances_formula_order formula formula' abdTable
    (cpus : Z) :
  formula ≡ₚ formula' → congruent formula abdTable → 1 ≤ cpus →
  ∃ d d',
    outcome (_getMassShiftAbundances formula abdTable cpus) = Ok d
    ∧ outcome (_getMassShiftAbundances formula' abdTable cpus) = Ok d'
    ∧ d ≡ₚ d'.
Proof.
  intros Hp Hc Hcpus.
  assert (congruent formula' abdTable) as Hc'.
  { intros atom Hin. apply Hc. unfold keys. by rewrite Hp. }
  rewrite !getMassShiftAbundances_pool by done.
  rewrite !genArgs_congruent by done. simpl.
  destruct (combine_spec
              (_getOneIsotopomer <$> product (slots formula abdTable)) [])
    as (d & Hd & Hwf & Hlook).
  destruct (combine_spec
              (_getOneIsotopomer <$> product (slots formula' abdTable)) [])
    as (d' & Hd' & Hwf' & Hlook').
  exists d, d'. split_and!; [done..|].
  apply dict_Permutation; [apply Hwf; constructor|apply Hwf'; constructor|].
  intros key. rewrite Hlook, Hlook'.
  assert (contributions key
            (_getOneIsotopomer <$> product (slots formula abdTable))
          ≡ₚ contributions key
               (_getOneIsotopomer <$> product (slots formula' abdTable)))
    as Hcontrib.
  { unfold contributions. do 2 f_equiv.
    apply results_product_Permutation. unfold slots. by rewrite Hp. }
  destruct (contributions key
              (_getOneIsotopomer <$> product (slots formula abdTable)))
    as [|x l].
  - apply Permutation_nil_l in Hcontrib. by rewrite <- Hcontrib.
  - destruct (contributions key
                (_getOneIsotopomer <$> product (slots formula' abdTable)))
      as [|x' l'].
    + by apply Permutation_nil_r in Hcontrib.
    + f_equal. change (fsum (x :: l) = fsum (x' :: l')).
      by apply fsum_Permutation.
Qed.

End FormulaOrder.

(** ** The main runner *)

(** X20: a text without upper-case letter, the empty text among them, is
    not refused: whatever the abundance table, [_main] evaluates the empty
    isotopomer and returns the distribution {(0, 0): 1.0}. *)
Theorem main_no_symbol (text : string) (abundance : abundance_table float)
    (cpus : Z) :
  has_upper text = false → 1 ≤ cpus →
  _main text abundance cpus
  = {| evaluated := [[]]; outcome := Ok [((0, 0), 1.0%float)] |}.
Proof.
  intros Hup%PATTERN_findall_no_upper Hcpus. unfold _main, _parseFormula.
  rewrite Hup. simpl.
  assert (_checkCongruency [] abundance = Ok ()) as ->.
  { apply checkCongruency_Ok. by intros atom ?%elem_of_nil. }
  rewrite getMassShiftAbundances_pool by done. reflexivity.
Qed.

(** ** Instances *)

(** An abundance table is congruent with a formula when the check returns;
    on concrete inputs the check is evaluated. *)
Ltac congruent_by_check :=
  apply checkCongruency_Ok; vm_compute; reflexivity.

Lemma getMassShiftAbundances_sums_witness :
  congruent formula_CH4 table_CH ∧ 1 ≤ 1
  ∧ ∃ isos d,
      genArgs formula_CH4 table_CH = Ok isos
      ∧ outcome (_getMassShiftAbundances formula_CH4 table_CH 1) = Ok d
      ∧ dict_wf d
      ∧ ∀ mass shift,
          dict_lookup d (mass, shift)
          = match contributions (mass, shift) (_getOneIsotopomer <$> isos) with
            | [] => None
            | abundances => Some (fsum abundances)
            end.
Proof.
  split; [congruent_by_check|]. split; [lia|].
  apply (getMassShiftAbundances_sums formula_CH4 table_CH 1);
    [congruent_by_check|lia].
Defined.

Lemma genArgs_complete_witness :
  congruent formula_CH4 table_CH
  ∧ ∃ isos,
      genArgs formula_CH4 table_CH = Ok isos
      ∧ length isos = space_size formula_CH4 table_CH
      ∧ (∀ atoms, atoms ∈ isos
           ↔ Forall2 (fun c pool => c ∈ pool) atoms (slots formula_CH4 table_CH))
      ∧ ((∀ atom, dict_wf (isotopes_of table_CH atom)) → NoDup isos).
Proof.
  split; [congruent_by_check|].
  apply (genArgs_complete formula_CH4 table_CH). congruent_by_check.
Defined.

(** The formula {C:1, H:4} has 2^1 * 1^4 = 2 isotopomers. *)
Example genArgs_CH4 :
  genArgs formula_CH4 table_CH
  = Ok [[(12, 0, 0.99%float); (1, 0, 1.0%float); (1, 0, 1.0%float);
         (1, 0, 1.0%float); (1, 0, 1.0%float)];
        [(13, 1, 0.01%float); (1, 0, 1.0%float); (1, 0, 1.0%float);
         (1, 0, 1.0%float); (1, 0, 1.0%float)]]
  ∧ space_size formula_CH4 table_CH = 2%nat.
Proof. split; reflexivity. Qed.

(** Two elements without entry: the exception names both. *)
Example checkCongruency_CNO :
  _checkCongruency formula_CNO table_CH
  = Raise (MissingAbundances {[ "N"%string; "O"%string ]}).
Proof. vm_compute. reflexivity. Qed.

Lemma distribution_total_witness :
  congruent formula_CH4 table_CH_exact ∧ 1 ≤ 1
  ∧ ∃ d, outcome (_getMassShiftAbundances formula_CH4 table_CH_exact 1) = Ok d
      ∧ dist_total d = expected_total formula_CH4 table_CH_exact.
Proof.
  split; [congruent_by_check|]. split; [lia|].
  destruct (distribution_total (F := Qc) formula_CH4 table_CH_exact 1)
    as (d & Hd & Htotal & _); [congruent_by_check|lia|].
  by exists d.
Defined.

(** In binary64, the arithmetic of the program, the identity holds up to
    rounding only: for {C:2} with the abundances 0.9893 and 0.0107, which
    sum to 1.0, the product over the elements is 1.0 and the values of the
    distribution sum to 0.99999999999999989, the binary64 number next
    below 1.0. *)
Lemma binary64_total_is_rounded :
  fsum (choice_abundance <$> choices (isotopes_of table_C "C")) = 1.0%float
  ∧ expected_total formula_C2 table_C = 1.0%float
  ∧ ∃ d, outcome (_getMassShiftAbundances formula_C2 table_C 1) = Ok d
      ∧ dist_total d = 0.99999999999999989%float
      ∧ dist_total d ≠ expected_total formula_C2 table_C.
Proof.
  split_and!; [vm_compute; reflexivity..|].
  eexists. split_and!; [vm_compute; reflexivity..|].
  vm_compute. discriminate.
Qed.



(** *** Instances of the further properties *)

Lemma genArgs_KeyError_witness :
  formula_C1N0 = [("C"%string, 1)] ++ [("N"%string, 0)]
  ∧ congruent [("C"%string, 1)] table_CH
  ∧ ("N"%string ∉ keys table_CH)
  ∧ 1 ≤ 1
  ∧ genArgs formula_C1N0 table_CH = Raise (KeyError_atom "N")
  ∧ _getMassShiftAbundances formula_C1N0 table_CH 1
    = {| evaluated := []; outcome := Raise (KeyError_atom "N") |}.
Proof.
  assert (congruent [("C"%string, 1)] table_CH) as Hc by congruent_by_check.
  assert ("N"%string ∉ keys table_CH) as Hn
    by (apply dict_lookup_None; reflexivity).
  split_and!; [reflexivity|exact Hc|exact Hn|lia|..];
    apply (genArgs_KeyError formula_C1N0 table_CH [("C"%string, 1)] []
             "N"%string 0 1 eq_refl Hc Hn); lia.
Defined.

Lemma getMassShiftAbundances_key_order_witness :
  congruent formula_CH4 table_CH ∧ 1 ≤ 1
  ∧ ∃ isos d,
      genArgs formula_CH4 table_CH = Ok isos
      ∧ outcome (_getMassShiftAbundances formula_CH4 table_CH 1) = Ok d
      ∧ keys d
        = first_occurrences (result_key <$> (_getOneIsotopomer <$> isos)).
Proof.
  split; [congruent_by_check|]. split; [lia|].
  apply (getMassShiftAbundances_key_order formula_CH4 table_CH 1);
    [congruent_by_check|lia].
Defined.

(** An element without isotope: no isotopomer, an empty distribution. *)
Example getMassShiftAbundances_CX :
  _getMassShiftAbundances formula_CX table_X 1
  = {| evaluated := []; outcome := Ok [] |}.
Proof. vm_compute. reflexivity. Qed.

Lemma getMassShiftAbundances_empty_witness :
  congruent formula_CX table_X ∧ 1 ≤ 1
  ∧ ∃ d,
      outcome (_getMassShiftAbundances formula_CX table_X 1) = Ok d
      ∧ (d = [] ↔ evaluated (_getMassShiftAbundances formula_CX table_X 1) = [])
      ∧ (d = [] ↔ ∃ atom num, (atom, num) ∈ formula_CX ∧ 0 < num
                    ∧ isotopes_of table_X atom = []).
Proof.
  split; [congruent_by_check|]. split; [lia|].
  apply (getMassShiftAbundances_empty formula_CX table_X 1);
    [congruent_by_check|lia].
Defined.

Lemma genArgs_isotopomer_length_witness :
  congruent formula_CH4 table_CH
  ∧ ∃ isos, genArgs formula_CH4 table_CH = Ok isos
      ∧ Forall (fun atoms => length atoms = atom_count formula_CH4) isos.
Proof.
  split; [congruent_by_check|].
  apply (genArgs_isotopomer_length formula_CH4 table_CH). congruent_by_check.
Defined.

Lemma getMassShiftAbundances_positive_witness :
  congruent formula_C1H0 table_CH
  ∧ _getMassShiftAbundances [("C"%string, 1)] table_CH 1
    = _getMassShiftAbundances formula_C1H0 table_CH 1.
Proof.
  split; [congruent_by_check|].
  apply (getMassShiftAbundances_positive formula_C1H0 table_CH 1).
  congruent_by_check.
Defined.

Lemma parsed_table_distribution_witness :
  _parseAbundanceTable int_of_numeral float_of_numeral rows_CH = Ok table_CH
  ∧ congruent formula_CH4 table_CH ∧ 1 ≤ 1
  ∧ ∃ d, outcome (_getMassShiftAbundances formula_CH4 table_CH 1) = Ok d
      ∧ d ≠ []
      ∧ evaluated (_getMassShiftAbundances formula_CH4 table_CH 1) ≠ [].
Proof.
  assert (_parseAbundanceTable int_of_numeral float_of_numeral rows_CH
          = Ok table_CH) as Hp by (vm_compute; reflexivity).
  split; [exact Hp|]. split; [congruent_by_check|]. split; [lia|].
  apply (parsed_table_distribution int_of_numeral float_of_numeral
           rows_CH table_CH formula_CH4 1 Hp); [congruent_by_check|lia].
Defined.

Lemma getOneIsotopomer_permutation_witness :
  [(12, 0, 0.99%float); (1, 0, 1.0%float)]
  ≡ₚ [(1, 0, 1.0%float); (12, 0, 0.99%float)]
  ∧ result_key (_getOneIsotopomer [(12, 0, 0.99%float); (1, 0, 1.0%float)])
    = result_key (_getOneIsotopomer [(1, 0, 1.0%float); (12, 0, 0.99%float)]).
Proof.
  split; [apply Permutation_swap|].
  apply (getOneIsotopomer_permutation
           [(12, 0, 0.99%float); (1, 0, 1.0%float)]
           [(1, 0, 1.0%float); (12, 0, 0.99%float)]).
  apply Permutation_swap.
Defined.

Lemma combine_permutation_witness :
  [(16, 0, Q2Qc (99 # 100)); (17, 1, Q2Qc (1 # 100))]
  ≡ₚ [(17, 1, Q2Qc (1 # 100)); (16, 0, Q2Qc (99 # 100))]
  ∧ ∃ d d',
      combine [(16, 0, Q2Qc (99 # 100)); (17, 1, Q2Qc (1 # 100))] [] = Ok d
      ∧ combine [(17, 1, Q2Qc (1 # 100)); (16, 0, Q2Qc (99 # 100))] [] = Ok d'
      ∧ d ≡ₚ d'.
Proof.
  split; [apply Permutation_swap|].
  apply (combine_permutation (F := Qc)). apply Permutation_swap.
Defined.

Lemma getMassShiftAbundances_single_isotope_witness :
  congruent formula_H2 table_CH
  ∧ (∀ atom, atom ∈ keys formula_H2 →
       length (isotopes_of table_CH atom) = 1%nat)
  ∧ 1 ≤ 1
  ∧ _getMassShiftAbundances formula_H2 table_CH 1
    = {| evaluated := [[(1, 0, 1.0%float); (1, 0, 1.0%float)]];
         outcome := Ok [((2, 0), 1.0%float)] |}.
Proof.
  assert (∀ atom, atom ∈ keys formula_H2 →
            length (isotopes_of table_CH atom) = 1%nat) as Hone.
  { intros atom ->%list_elem_of_singleton. reflexivity. }
  split; [congruent_by_check|]. split; [exact Hone|]. split; [lia|].
  rewrite (getMassShiftAbundances_single_isotope formula_H2 table_CH 1);
    [vm_compute; reflexivity|congruent_by_check|exact Hone|lia].
Defined.

Lemma main_no_symbol_witness :
  has_upper "h2o" = false ∧ 1 ≤ 1
  ∧ _main "h2o" table_CH 1
    = {| evaluated := [[]]; outcome := Ok [((0, 0), 1.0%float)] |}.
Proof.
  split; [reflexivity|]. split; [lia|].
  apply (main_no_symbol "h2o" table_CH 1); [reflexivity|lia].
Defined.

Lemma getMassShiftAbundances_formula_order_witness :
  formula_CH4 ≡ₚ formula_H4C ∧ congruent formula_CH4 table_CH_exact ∧ 1 ≤ 1
  ∧ ∃ d d',
      outcome (_getMassShiftAbundances formula_CH4 table_CH_exact 1) = Ok d
      ∧ outcome (_getMassShiftAbundances formula_H4C table_CH_exact 1) = Ok d'
      ∧ d ≡ₚ d'.
Proof.
  split; [apply Permutation_swap|]. split; [congruent_by_check|].
  split; [lia|].
  apply (getMassShiftAbundances_formula_order (F := Qc)
           formula_CH4 formula_H4C table_CH_exact 1);
    [apply Permutation_swap|congruent_by_check|lia].
Defined.
